(** * Verification of opt.py: dihedral-constrained geometry optimisation driver

    The script [bin/opt.py] consists of
    - [calc_dihedral], a numpy function over four 3D points (lines 44-67);
    - a driver (lines 69-170) that parses the command line, optionally builds
      a dihedral constraint, calls the ASE optimiser and writes an XYZ file.

    The numeric code is written once, over an interface of float
    operations ([Arith], [Libm]), and read at two instances:
    - [Binary64]: IEEE-754 double precision as specified by the standard
      library's [SpecFloat], with the C library's [acos] as a parameter.
      This is the arithmetic the script runs on: the range of
      [calc_dihedral], its behaviour on degenerate input and the modulo
      normalisation of lines 139-141 are studied here bit for bit.
    - [Exact]: IEEE special values (NaN, infinities) over exact real
      arithmetic, where [arccos] is the real arc cosine.  It knows no
      rounding, overflow or underflow, and is used only for what does
      not depend on them: the propagation of NaN, the comparisons of the
      clip, translations, the reversal of the point order, and the modulo
      over the reals.

    The driver is a function in a small monad of printing, file writing
    and exceptions.  Its collaborators (the XYZ reader, the ORB calculator,
    the BFGS run, the energy query) and Python's float formatting are
    parameters: nothing is assumed about them. *)

From Stdlib Require Import Reals Lra Lia ZArith List String Ascii Bool.
From Stdlib Require Import SpecFloat DecimalString.
Import ListNotations.

(** ** The float interface used by the script *)

(** Operations of numpy's float64 scalars and arrays that the script uses.
    [flt] and [feq] are the IEEE comparisons: both answer [false] as soon
    as one side is NaN. *)
Class Arith (F : Type) : Type := {
fadd : F -> F -> F;
fsub : F -> F -> F;
fmul : F -> F -> F;
fdiv : F -> F -> F;
fsqrt : F -> F;
ffmod : F -> F -> F;        (* C's fmod *)
fcopysign : F -> F -> F;    (* C's copysign *)
flt : F -> F -> bool;
feq : F -> F -> bool;
fconst : Z -> F             (* a literal such as 0, 1.0, -1.0, 360 *)
}.

(** The two places where the script relies on pi: [np.arccos] and the
    constant [180.0 / pi] of [np.degrees]. *)
Class Libm (F : Type) : Type := {
arccos : F -> F;
rad2deg : F
}.

Declare Scope float_scope.
Delimit Scope float_scope with fl.
Infix "+" := fadd : float_scope.
Infix "-" := fsub : float_scope.
Infix "*" := fmul : float_scope.
Infix "/" := fdiv : float_scope.
Infix "<?" := flt : float_scope.
Infix "=?" := feq : float_scope.

Section Numeric.
Context {F : Type} {AF : Arith F}.
Local Open Scope float_scope.

(** [x != 0] of Python on a float: true for NaN. *)
Definition fne (x y : F) : bool := negb (x =? y).

Definition fgt (x y : F) : bool := y <? x.

(** [npy_isnan]: the only value different from itself. *)
Definition fisnan (x : F) : bool := negb (x =? x).

(** A row of the positions array, or any length-3 numpy vector. *)
Record vec3 : Type := V3 { vx : F; vy : F; vz : F }.

(** [a - b] on arrays of length 3. *)
Definition vsub (a b : vec3) : vec3 :=
    V3 (vx a - vx b) (vy a - vy b) (vz a - vz b).

(** [np.cross(a, b)]: cp0 = a1*b2 - a2*b1, cp1 = a2*b0 - a0*b2,
      cp2 = a0*b1 - a1*b0. *)
Definition cross (a b : vec3) : vec3 :=
    V3 (vy a * vz b - vz a * vy b)
       (vz a * vx b - vx a * vz b)
       (vx a * vy b - vy a * vx b).

(** [np.dot(a, b)] on two vectors of length 3, summed from the left. *)
Definition dot (a b : vec3) : F :=
    vx a * vx b + vy a * vy b + vz a * vz b.

(** [np.linalg.norm(a)] for a real 1-D array: [sqrt(a.dot(a))]. *)
Definition norm (a : vec3) : F := fsqrt (dot a a).

(** [a /= s]: every component divided by the scalar. *)
Definition vdiv (a : vec3) (s : F) : vec3 :=
    V3 (vx a / s) (vy a / s) (vz a / s).

(** [np.clip(x, lo, hi)] = min(max(x, lo), hi), where numpy's float
      max and min return their first argument when it is NaN. *)
Definition np_max (a b : F) : F :=
    if fisnan a then a else if fgt a b then a else b.
Definition np_min (a b : F) : F :=
    if fisnan a then a else if a <? b then a else b.
Definition clip (x lo hi : F) : F := np_min (np_max x lo) hi.

(** [np.sign(x)]: 1, -1, 0, and NaN for NaN. *)
Definition np_sign (x : F) : F :=
    if fgt x (fconst 0) then fconst 1
    else if x <? fconst 0 then fconst (-1)
    else if x =? fconst 0 then fconst 0
    else x.

(** [a % b] on float64 (numpy's and CPython's remainder): the C [fmod],
      moved by [b] when its sign differs from the sign of [b]. *)
Definition py_mod (a b : F) : F :=
    let m := ffmod a b in
    if b =? fconst 0 then m
    else if fne m (fconst 0) then
      if xorb (b <? fconst 0) (m <? fconst 0) then m + b else m
    else fcopysign (fconst 0) b.

(** Lines 139-141: [a = a % 360; if a < 0: a += 360]. *)
Definition normalize_to_0_360 (angle : F) : F :=
    let a := py_mod angle (fconst 360) in
    if a <? fconst 0 then a + fconst 360 else a.

Context {LF : Libm F}.

(** [np.degrees(x)]: [x * (180.0 / pi)]. *)
Definition degrees (x : F) : F := x * rad2deg.

(** Lines 44-67. *)
Definition calc_dihedral (p1 p2 p3 p4 : vec3) : F :=
    let b1 := vsub p2 p1 in
    let b2 := vsub p3 p2 in
    let b3 := vsub p4 p3 in
    let n1 := cross b1 b2 in
    let n2 := cross b2 b3 in
    let n1 := vdiv n1 (norm n1) in
    let n2 := vdiv n2 (norm n2) in
    let cos_phi := clip (dot n1 n2) (fconst (-1)) (fconst 1) in
    let phi := arccos cos_phi in
    let sign := np_sign (dot b2 (cross n1 n2)) in
    let phi := if fne sign (fconst 0) then phi * sign else phi in
    degrees phi.

End Numeric.

Arguments vec3 F : clear implicits.
Arguments V3 {F} _ _ _.

(** ** Exact arithmetic with IEEE special values *)

(** An idealised float: the operations are those of the real numbers, so
    nothing is rounded and nothing overflows or underflows.  What is
    proved at this instance holds for the script only where rounding
    plays no part. *)
Module Exact.
Local Open Scope R_scope.

(** A float64 read as the real number it denotes, or one of the
      special values.  There is one zero (treated as +0). *)
Inductive xreal : Type :=
| XFin (r : R)
| XInf (neg : bool)
| XNaN.

Definition Rltb (a b : R) : bool := if Rlt_dec a b then true else false.
Definition Reqb (a b : R) : bool := if Req_dec_T a b then true else false.

Definition xopp (x : xreal) : xreal :=
    match x with
    | XFin a => XFin (- a)
    | XInf s => XInf (negb s)
    | XNaN => XNaN
    end.

Definition xadd (x y : xreal) : xreal :=
    match x, y with
    | XNaN, _ | _, XNaN => XNaN
    | XFin a, XFin b => XFin (a + b)
    | XInf s, XInf t => if Bool.eqb s t then XInf s else XNaN
    | XInf s, XFin _ => XInf s
    | XFin _, XInf t => XInf t
    end.

Definition xsub (x y : xreal) : xreal := xadd x (xopp y).

Definition xmul (x y : xreal) : xreal :=
    match x, y with
    | XNaN, _ | _, XNaN => XNaN
    | XFin a, XFin b => XFin (a * b)
    | XInf s, XInf t => XInf (xorb s t)
    | XInf s, XFin b => if Reqb b 0 then XNaN else XInf (xorb s (Rltb b 0))
    | XFin a, XInf t => if Reqb a 0 then XNaN else XInf (xorb (Rltb a 0) t)
    end.

Definition xdiv (x y : xreal) : xreal :=
    match x, y with
    | XNaN, _ | _, XNaN => XNaN
    | XFin a, XFin b =>
        if Reqb b 0 then (if Reqb a 0 then XNaN else XInf (Rltb a 0))
        else XFin (a / b)
    | XInf _, XInf _ => XNaN
    | XInf s, XFin b => XInf (xorb s (Rltb b 0))
    | XFin _, XInf _ => XFin 0
    end.

Definition xsqrt (x : xreal) : xreal :=
    match x with
    | XNaN => XNaN
    | XFin a => if Rltb a 0 then XNaN else XFin (sqrt a)
    | XInf false => XInf false
    | XInf true => XNaN
    end.

(** Rounding of a real quotient towards zero. *)
Definition Rtrunc (q : R) : Z :=
    if Rltb q 0 then (- Zfloor (- q))%Z else Zfloor q.

(** C's [fmod]: [a - b * trunc(a / b)]. *)
Definition xfmod (x y : xreal) : xreal :=
    match x, y with
    | XNaN, _ | _, XNaN => XNaN
    | XInf _, _ => XNaN
    | XFin a, XInf _ => XFin a
    | XFin a, XFin b =>
        if Reqb b 0 then XNaN else XFin (a - b * IZR (Rtrunc (a / b)))
    end.

Definition xsignbit (y : xreal) : bool :=
    match y with
    | XFin b => Rltb b 0
    | XInf s => s
    | XNaN => false
    end.

Definition xcopysign (x y : xreal) : xreal :=
    match x with
    | XFin a => XFin (if xsignbit y then - Rabs a else Rabs a)
    | XInf _ => XInf (xsignbit y)
    | XNaN => XNaN
    end.

Definition xlt (x y : xreal) : bool :=
    match x, y with
    | XNaN, _ | _, XNaN => false
    | XFin a, XFin b => Rltb a b
    | XInf s, XInf t => andb s (negb t)
    | XInf s, XFin _ => s
    | XFin _, XInf t => negb t
    end.

Definition xeq (x y : xreal) : bool :=
    match x, y with
    | XNaN, _ | _, XNaN => false
    | XFin a, XFin b => Reqb a b
    | XInf s, XInf t => Bool.eqb s t
    | _, _ => false
    end.

(** [np.arccos]: NaN outside [-1, 1]. *)
Definition xarccos (x : xreal) : xreal :=
    match x with
    | XFin a => if Rltb a (-1) then XNaN else if Rltb 1 a then XNaN else XFin (acos a)
    | _ => XNaN
    end.

#[export] Instance xreal_arith : Arith xreal := {
    fadd := xadd; fsub := xsub; fmul := xmul; fdiv := xdiv; fsqrt := xsqrt;
    ffmod := xfmod; fcopysign := xcopysign; flt := xlt; feq := xeq;
    fconst := fun z => XFin (IZR z)
}.

#[export] Instance xreal_libm : Libm xreal := {
    arccos := xarccos;
    rad2deg := XFin (180 / PI)
}.

(** A point with finite coordinates. *)
Definition pt (x y z : R) : vec3 xreal := V3 (XFin x) (XFin y) (XFin z).

(** The vector numpy shows as [[nan, nan, nan]]. *)
Definition vnan : vec3 xreal := V3 XNaN XNaN XNaN.

End Exact.

(** The coordinates of a finite point and its reading as a numpy row. *)
Definition embed (p : vec3 R) : vec3 Exact.xreal :=
  Exact.pt (vx p) (vy p) (vz p).

(** Real-number reading of the steps of [calc_dihedral], used to state
    what the function returns on finite, non-degenerate input in exact
    arithmetic. *)
Module RealGeometry.
Local Open Scope R_scope.

Definition rsub (a b : vec3 R) : vec3 R :=
  V3 (vx a - vx b) (vy a - vy b) (vz a - vz b).
Definition rcross (a b : vec3 R) : vec3 R :=
  V3 (vy a * vz b - vz a * vy b)
     (vz a * vx b - vx a * vz b)
     (vx a * vy b - vy a * vx b).
Definition rdot (a b : vec3 R) : R :=
  vx a * vx b + vy a * vy b + vz a * vz b.
Definition rnorm (a : vec3 R) : R := sqrt (rdot a a).
Definition runit (a : vec3 R) : vec3 R :=
  V3 (vx a / rnorm a) (vy a / rnorm a) (vz a / rnorm a).
Definition rzero : vec3 R := V3 0 0 0.

(** clamp(x, -1, 1) *)
Definition clamp (x : R) : R := Rmin (Rmax x (-1)) 1.

(** sign(x) in {-1, 0, 1} *)
Definition sgn (x : R) : R :=
  if Rlt_dec 0 x then 1 else if Rlt_dec x 0 then -1 else 0.

(** The two plane normals of the four points. *)
Definition normal1 (p1 p2 p3 : vec3 R) : vec3 R :=
  rcross (rsub p2 p1) (rsub p3 p2).
Definition normal2 (p2 p3 p4 : vec3 R) : vec3 R :=
  rcross (rsub p3 p2) (rsub p4 p3).

(** No three consecutive points are collinear: both normals are non-zero. *)
Definition nondegenerate (p1 p2 p3 p4 : vec3 R) : Prop :=
  normal1 p1 p2 p3 <> rzero /\ normal2 p2 p3 p4 <> rzero.

(** The unsigned angle phi = arccos(clamp(n1.n2)) between the unit normals. *)
Definition unsigned_angle (p1 p2 p3 p4 : vec3 R) : R :=
  acos (clamp (rdot (runit (normal1 p1 p2 p3)) (runit (normal2 p2 p3 p4)))).

(** sign(b2 . (n1 x n2)) on the unit normals. *)
Definition orientation (p1 p2 p3 p4 : vec3 R) : R :=
  sgn (rdot (rsub p3 p2)
            (rcross (runit (normal1 p1 p2 p3)) (runit (normal2 p2 p3 p4)))).

(** phi carrying the sign s; phi itself when s is 0 (line 63). *)
Definition signed_angle (phi s : R) : R :=
  if Req_dec_T s 0 then phi else phi * s.

(** The value returned on finite, non-degenerate points. *)
Definition dihedral_deg (p1 p2 p3 p4 : vec3 R) : R :=
  signed_angle (unsigned_angle p1 p2 p3 p4) (orientation p1 p2 p3 p4) * (180 / PI).


End RealGeometry.

(** ** IEEE-754 binary64 *)

Module Binary64.

Definition prec : Z := 53.
Definition emax : Z := 1024.

(** A float64, as the standard library specifies it: signed zeros,
    infinities, NaN, or [(-1)^s * m * 2^e]. *)
Definition float64 : Type := spec_float.

Definition of_Z (z : Z) : float64 := binary_normalize prec emax z 0 false.

(** The float [(-1)^s * r * 2^e] for an integer [r >= 0] that fits the
    format: the mantissa is shifted to its canonical exponent. *)
Definition exact_float (s : bool) (r : Z) (e : Z) : float64 :=
  match r with
  | Zpos p =>
      let '(m, e') := shl_align p e (fexp prec emax (Zpos (digits2_pos p) + e)) in
      S754_finite s m e'
  | _ => S754_zero s
  end.

(** C's [fmod(x, y)]: the exact remainder of the division of [x] by [y]
    with the quotient rounded towards zero; it carries the sign of [x] and
    is always representable, so no rounding takes place. *)
Definition fmod (x y : float64) : float64 :=
  match x, y with
  | S754_nan, _ | _, S754_nan => S754_nan
  | S754_infinity _, _ => S754_nan
  | _, S754_zero _ => S754_nan
  | S754_zero s, _ => S754_zero s
  | S754_finite _ _ _, S754_infinity _ => x
  | S754_finite sx mx ex, S754_finite _ my ey =>
      let e := Z.min ex ey in
      let r := (Zpos mx * 2 ^ (ex - e)) mod (Zpos my * 2 ^ (ey - e)) in
      exact_float sx r e
  end%Z.

Definition signbit (x : float64) : bool :=
  match x with
  | S754_zero s | S754_infinity s | S754_finite s _ _ => s
  | S754_nan => false
  end.

Definition copysign (x y : float64) : float64 :=
  match x with
  | S754_zero _ => S754_zero (signbit y)
  | S754_infinity _ => S754_infinity (signbit y)
  | S754_finite _ m e => S754_finite (signbit y) m e
  | S754_nan => S754_nan
  end.

#[export] Instance float64_arith : Arith float64 := {
  fadd := SFadd prec emax;
  fsub := SFsub prec emax;
  fmul := SFmul prec emax;
  fdiv := SFdiv prec emax;
  fsqrt := SFsqrt prec emax;
  ffmod := fmod;
  fcopysign := copysign;
  flt := SFltb;
  feq := SFeqb;
  fconst := of_Z
}.

(** 360.0 = M360 * 2^-44 *)
Definition M360 : Z := 6333186975989760.
Definition f360 : float64 := S754_finite false 6333186975989760 (-44).

(** Neither NaN nor an infinity. *)
Definition is_finite (x : float64) : bool :=
  match x with
  | S754_zero _ | S754_finite _ _ _ => true
  | _ => false
  end.

(** The float64 nearest to -1e-20, as CPython parses the literal:
    -(0x179CA10C924223 * 2^-119). *)
Definition minus_1e_20 : float64 :=
  S754_finite true 6646139978924579 (-119).

(** -2^-60. *)
Definition minus_2p_60 : float64 :=
  S754_finite true 4503599627370496 (-112).

(** A few more float64 values: -90.0, 270.0, 725.5, 5.5, and the floats
    nearest to -0.1 and to 359.9. *)
Definition f_minus_90 : float64 := S754_finite true 6333186975989760 (-46).
Definition f_270 : float64 := S754_finite false 4749890231992320 (-44).
Definition f_725_5 : float64 := S754_finite false 6381565487611904 (-43).
Definition f_5_5 : float64 := S754_finite false 6192449487634432 (-50).
Definition f_minus_tenth : float64 := S754_finite true 7205759403792794 (-56).
Definition f_359_9 : float64 := S754_finite false 6331427757385318 (-44).

End Binary64.

(** ** The driver (lines 69-170) *)

Local Open Scope string_scope.

(** [str(n)] of a Python int. *)
Definition str_int (z : Z) : string := NilZero.string_of_int (Z.to_int z).

(** [str(l)] of a list of ints: [[2, 3, 4, 12]]. *)
Definition str_int_list (l : list Z) : string :=
  "[" ++ String.concat ", " (map str_int l) ++ "]".

(** [format(s, "2s")]: left-aligned in a field of width 2. *)
Definition pad2 (s : string) : string :=
  match String.length s with
  | O => "  "
  | S O => s ++ " "
  | _ => s
  end.

(** What can interrupt a run: numpy's [IndexError] on [p[i]], or a failure
    inside a collaborator (file reader, calculator, optimiser). *)
Inductive exn : Type :=
| IndexError
| ExternalError (msg : string).

(** [p[i]] on a sequence of length [n]: indices [-n .. n-1] are valid,
    negative ones count from the end. *)
Definition py_index {A : Type} (p : list A) (i : Z) : exn + A :=
  let n := Z.of_nat (List.length p) in
  let k := if (i <? 0)%Z then (n + i)%Z else i in
  if ((0 <=? k) && (k <? n))%Z then
    match nth_error p (Z.to_nat k) with
    | Some a => inr a
    | None => inl IndexError
    end
  else inl IndexError.

(** The four values of [--dihedral_indices] ([nargs=4]). *)
Definition quad : Type := (Z * Z * Z * Z)%type.
Definition quad_list (q : quad) : list Z :=
  let '(i, j, k, l) := q in [i; j; k; l].
Definition quad_map (f : Z -> Z) (q : quad) : quad :=
  let '(i, j, k, l) := q in (f i, f j, f k, f l).

(** [[i - 1 for i in args.dihedral_indices]] (line 94). *)
Definition zero_based (q : quad) : quad := quad_map (fun i => i - 1)%Z q.

(** Whether [p[i]] succeeds on a sequence of length [n]. *)
Definition in_bounds (n : nat) (i : Z) : bool :=
  ((- Z.of_nat n <=? i) && (i <? Z.of_nat n))%Z.

(** Line 95, the first line printed by a constrained run. *)
Definition constraining_line (idx : quad) : string :=
  "Constraining dihedral " ++ str_int_list (quad_list idx)
  ++ " (1-based) → " ++ str_int_list (quad_list (zero_based idx)) ++ " (0-based)".

(** Lines 82-83. *)
Definition banner (script : string) : list string :=
  ["Running " ++ script ++ " version 0.14";
   "------------------------------------------------------------"].

(** What the process leaves behind: the lines printed and the files
    written (latest first). *)
Record World : Type := mkWorld {
  stdout : list string;
  files : list (string * string)
}.

(** A computation that prints, writes files and may raise. *)
Definition M (A : Type) : Type := World -> (exn + A) * World.

Definition ret {A : Type} (a : A) : M A := fun w => (inr a, w).
Definition raise {A : Type} (e : exn) : M A := fun w => (inl e, w).
Definition bind {A B : Type} (m : M A) (k : A -> M B) : M B :=
  fun w =>
    match m w with
    | (inl e, w') => (inl e, w')
    | (inr a, w') => k a w'
    end.
Definition lift {A : Type} (r : exn + A) : M A := fun w => (r, w).
Definition print (s : string) : M unit :=
  fun w => (inr tt, mkWorld (stdout w ++ [s]) (files w)).
Definition write_file (path content : string) : M unit :=
  fun w => (inr tt, mkWorld (stdout w) ((path, content) :: files w)).

(** The world after some more lines were printed. *)
Definition log (w : World) (lines : list string) : World :=
  mkWorld (stdout w ++ lines) (files w).

Declare Scope monad_scope.
Delimit Scope monad_scope with monad.
Notation "x <- c1 ;; c2" := (bind c1 (fun x => c2))
  (at level 61, c1 at next level, right associativity) : monad_scope.
Notation "c1 ;; c2" := (bind c1 (fun _ => c2))
  (at level 61, right associativity) : monad_scope.

Section Driver.
Context {F : Type} {AF : Arith F} {LF : Libm F}.

(** Python's [format(x, spec)] on a float; [format_float "" x] is [str(x)]. *)
Variable format_float : string -> F -> string.
(** [__file__] *)
Variable script : string.
(** Cell, periodicity flags and calculator are carried, never inspected. *)
Context {Cell Pbc Calc : Type}.

(** The parsed command line. *)
Record Args : Type := mkArgs {
  input_file : string;
  output_file : string;
  charge : F;
  spin : F;
  dihedral_indices : option quad;
  dihedral_angle : option F
}.

(** [FixInternals(dihedrals_deg=[(target, indices)])]: the constructor
    stores its argument. *)
Record FixInternals : Type := mkFixInternals {
  dihedrals_deg : list (F * quad)
}.

(** An [ase.Atoms] object, as far as the script touches it. *)
Record Atoms : Type := mkAtoms {
  sites : list (string * vec3 F);     (* symbol and position of each atom *)
  cell : Cell;
  pbc : Pbc;
  info_charge : option F;
  info_spin : option F;
  constraints : list FixInternals;
  calc : option Calc
}.

Definition get_positions (a : Atoms) : list (vec3 F) := map snd (sites a).
Definition get_chemical_symbols (a : Atoms) : list string := map fst (sites a).

Definition set_info (a : Atoms) (c s : F) : Atoms :=
  mkAtoms (sites a) (cell a) (pbc a) (Some c) (Some s) (constraints a) (calc a).
Definition set_constraint (a : Atoms) (cs : list FixInternals) : Atoms :=
  mkAtoms (sites a) (cell a) (pbc a) (info_charge a) (info_spin a) cs (calc a).
Definition set_calc (a : Atoms) (c : Calc) : Atoms :=
  mkAtoms (sites a) (cell a) (pbc a) (info_charge a) (info_spin a) (constraints a) (Some c).

(** The collaborators: [ase.io.read], the ORB calculator factory,
    [BFGS(atoms).run(fmax=0.05)] and [atoms.get_potential_energy()].
    Each may print and may raise. *)
Variable read : string -> M Atoms.
Variable load_calculator : M Calc.
Variable bfgs_run : Atoms -> M Atoms.
Variable get_potential_energy : Atoms -> M F.

Local Open Scope monad_scope.

(** [calc_dihedral(p[i], p[j], p[k], p[l])] on the positions of [a]. *)
Definition dihedral_of (a : Atoms) (idx0 : quad) : M F :=
  let '(i, j, k, l) := idx0 in
  let p := get_positions a in
  pi <- lift (py_index p i) ;;
  pj <- lift (py_index p j) ;;
  pk <- lift (py_index p k) ;;
  pl <- lift (py_index p l) ;;
  ret (calc_dihedral pi pj pk pl).

(** All four 0-based indices are accepted by [p[i]]. *)
Definition all_in_bounds (a : Atoms) (q : quad) : bool :=
  forallb (in_bounds (List.length (get_positions a))) (quad_list q).

(** Lines 93-114: the constraint, if any, is attached to the atoms. *)
Definition setup_constraint (args : Args) (atoms : Atoms) : M Atoms :=
  match dihedral_indices args with
  | Some idx =>
      let dihedral_indices_0based := zero_based idx in
      print ("Constraining dihedral " ++ str_int_list (quad_list idx)
             ++ " (1-based) → " ++ str_int_list (quad_list dihedral_indices_0based)
             ++ " (0-based)") ;;
      target_angle <-
        match dihedral_angle args with
        | None =>
            current_angle <- dihedral_of atoms dihedral_indices_0based ;;
            print ("--dihedral_angle not specified. Using current dihedral angle: "
                   ++ format_float ".2f" current_angle ++ "°") ;;
            ret current_angle
        | Some a =>
            print ("Using user-specified target dihedral angle: "
                   ++ format_float ".2f" a ++ "°") ;;
            ret a
        end ;;
      ret (set_constraint atoms
             [mkFixInternals [(target_angle, dihedral_indices_0based)]])
  | None =>
      print "No dihedral constraint applied. Performing unconstrained optimization." ;;
      ret (set_constraint atoms [])
  end.

(** Lines 133-142: the achieved angle, only when a constraint is active. *)
Definition actual_angle (args : Args) (atoms : Atoms) : M (option F) :=
  match dihedral_indices args with
  | Some idx =>
      a <- dihedral_of atoms (zero_based idx) ;;
      let actual_angle_deg := normalize_to_0_360 a in
      print ("Actual dihedral angle: " ++ format_float ".2f" actual_angle_deg ++ "°") ;;
      ret (Some actual_angle_deg)
  | None => ret None
  end.

(** Line 158. *)
Definition angle_source (args : Args) : string :=
  match dihedral_angle args with
  | None => "fixed_current"
  | Some _ => "user_specified"
  end.

(** Lines 156-161.  [actual_angle_deg] is consulted only in the
    constrained branch, where line 138 has set it. *)
Definition comment (args : Args) (actual_angle_deg : option F) (final_energy : F)
  : string :=
  match dihedral_indices args, actual_angle_deg with
  | Some idx, Some a =>
      "dihedral=" ++ String.concat "-" (map str_int (quad_list idx))
      ++ " actual_angle=" ++ format_float ".2f" a
      ++ " energy=" ++ format_float ".6f" final_energy
      ++ " eV charge=" ++ format_float "" (charge args)
      ++ " spin=" ++ format_float "" (spin args)
      ++ " constraint_source=" ++ angle_source args
  | _, _ =>
      "energy=" ++ format_float ".6f" final_energy
      ++ " eV charge=" ++ format_float "" (charge args)
      ++ " spin=" ++ format_float "" (spin args)
  end.

(** Lines 164-168: the text of the output file. *)
Definition atom_line (s : string * vec3 F) : string :=
  pad2 (fst s) ++ " " ++ format_float "15.8f" (vx (snd s))
  ++ " " ++ format_float "15.8f" (vy (snd s))
  ++ " " ++ format_float "15.8f" (vz (snd s)) ++ String "010" "".

Definition xyz_text (clean_atoms : list (string * vec3 F)) (c : string) : string :=
  str_int (Z.of_nat (List.length clean_atoms)) ++ String "010" ""
  ++ c ++ String "010" ""
  ++ String.concat "" (map atom_line clean_atoms).

(** Lines 131-170: energy, achieved angle, comment line, output file. *)
Definition report (args : Args) (atoms : Atoms) : M unit :=
  final_energy <- get_potential_energy atoms ;;
  actual_angle_deg <- actual_angle args atoms ;;
  print "Optimization finished." ;;
  print ("Final energy: " ++ format_float ".6f" final_energy ++ " eV") ;;
  let clean_atoms := sites atoms in
  let c := comment args actual_angle_deg final_energy in
  write_file (output_file args) (xyz_text clean_atoms c) ;;
  print ("Optimized structure saved to " ++ output_file args
         ++ " with comment: " ++ c).

(** The whole script. *)
Definition main (args : Args) : M unit :=
  print ("Running " ++ script ++ " version 0.14") ;;
  print "------------------------------------------------------------" ;;
  atoms <- read (input_file args) ;;
  let atoms := set_info atoms (charge args) (spin args) in
  atoms <- setup_constraint args atoms ;;
  c <- load_calculator ;;
  let atoms := set_calc atoms c in
  print "Starting geometry optimization..." ;;
  atoms <- bfgs_run atoms ;;
  report args atoms.

End Driver.

Arguments Args F : clear implicits.
Arguments FixInternals F : clear implicits.
Arguments Atoms F Cell Pbc Calc : clear implicits.

(** ** Sample inputs *)

Module Samples.
Import Exact.
Local Open Scope R_scope.

(** Four points whose planes are perpendicular. *)
Definition Q1 : vec3 R := V3 1 0 0.
Definition Q2 : vec3 R := V3 0 0 0.
Definition Q3 : vec3 R := V3 0 0 1.
Definition Q4 : vec3 R := V3 0 1 1.

(** Three points on the x axis and a fourth one off it. *)
Definition L1 : vec3 R := V3 0 0 0.
Definition L2 : vec3 R := V3 1 0 0.
Definition L3 : vec3 R := V3 2 0 0.
Definition L4 : vec3 R := V3 2 1 0.

(** A stand-in for Python's float formatting: the format spec in brackets. *)
Definition show (spec : string) (x : xreal) : string := "<" ++ spec ++ ">".

Definition molecule (a b c d : vec3 R) : Atoms xreal unit unit unit :=
  mkAtoms [("C", embed a); ("C", embed b); ("C", embed c); ("H", embed d)]
          tt tt None None [] None.

Definition bent : Atoms xreal unit unit unit := molecule Q1 Q2 Q3 Q4.
Definition straight : Atoms xreal unit unit unit := molecule L1 L2 L3 L4.

(** Collaborators that succeed at once: the reader returns [bent], the
    optimiser leaves the atoms where they are, the energy is 0. *)
Definition read_bent (path : string) : M (Atoms xreal unit unit unit) := ret bent.
Definition calc_unit : M unit := ret tt.
Definition bfgs_id (a : Atoms xreal unit unit unit) : M (Atoms xreal unit unit unit) := ret a.
Definition energy_zero (a : Atoms xreal unit unit unit) : M xreal := ret (XFin 0).

Definition empty_world : World := mkWorld [] [].

(** Command lines: [--dihedral_indices 1 2 3 4], with and without
    [--dihedral_angle 400], and a run with the angle alone. *)
Definition freeze_args : Args xreal :=
  mkArgs "in.xyz" "out.xyz" (XFin 0) (XFin 1) (Some (1, 2, 3, 4)%Z) None.
Definition target_args : Args xreal :=
  mkArgs "in.xyz" "out.xyz" (XFin 0) (XFin 1) (Some (1, 2, 3, 4)%Z) (Some (XFin 400)).

(** Indices that repeat an atom, leave the structure (5 of 4 atoms) and
    include 0, which is not a 1-based index. *)
Definition bad_args : Args xreal :=
  mkArgs "in.xyz" "out.xyz" (XFin 0) (XFin 1) (Some (1, 1, 5, 0)%Z) (Some (XFin 90)).

End Samples.


(** ** Translations and rows with NaN *)

Module Motions.
Import RealGeometry.
Local Open Scope R_scope.


(** Some coordinate of the row is NaN. *)
Definition has_nan (v : vec3 Exact.xreal) : Prop :=
  vx v = Exact.XNaN \/ vy v = Exact.XNaN \/ vz v = Exact.XNaN.

End Motions.


(** ** [np.arccos] and [np.degrees] on binary64 *)

Module Binary64Libm.
Import Binary64.

(** The vector numpy shows as [[nan, nan, nan]]. *)
Definition vnan64 : vec3 float64 := V3 S754_nan S754_nan S754_nan.

(** [np.arccos] around a C library's [acos]: NaN gives NaN, as IEEE-754
    and C require; the values of [acos] elsewhere are the library's own. *)
Definition arccos_with (acos : float64 -> float64) (x : float64) : float64 :=
  match x with
  | S754_nan => S754_nan
  | _ => acos x
  end.

(** [180.0 / pi] in double precision: 0x1.ca5dc1a63c1f8p+5. *)
Definition rad2deg64 : float64 := S754_finite false 8063664102031864 (-47).

Definition float64_libm (acos : float64 -> float64) : Libm float64 := {|
  arccos := arccos_with acos;
  rad2deg := rad2deg64
|}.

(** A zero of either sign, or NaN. *)
Definition zero_or_nan (x : float64) : bool :=
  match x with
  | S754_zero _ | S754_nan => true
  | _ => false
  end.

(** Every component is a zero or NaN: what [p - p] is for any [p]. *)
Definition zero_vector (v : vec3 float64) : Prop :=
  zero_or_nan (vx v) = true /\ zero_or_nan (vy v) = true /\ zero_or_nan (vz v) = true.

End Binary64Libm.


(** ** More about indices and text *)

(** The position that [p[i]] reads on a sequence of length [n], for a
    negative [i]: numpy counts from the end. *)
Definition wrap_index (n : nat) (i : Z) : Z :=
  if (i <? 0)%Z then (i + Z.of_nat n)%Z else i.

(** The number of line feeds in a text. *)
Fixpoint count_newlines (s : string) : nat :=
  match s with
  | EmptyString => O
  | String c rest =>
      (if Ascii.eqb c "010"%char then 1 else 0) + count_newlines rest
  end.

(** A formatter whose output does not depend on its input, for sample
    runs that count lines. *)
Definition plain (spec : string) (x : Exact.xreal) : string := "0.0".

(** ** The range of [calc_dihedral] on binary64 *)

Module Binary64Range.
Import Binary64 Binary64Libm.
Local Open Scope Z_scope.

(** The float64 nearest to pi, 0x1.921fb54442d18p+1: what [acos(-1.0)]
    returns. *)
Definition Mpi : Z := 7074237752028440.
Definition pi64 : float64 := S754_finite false 7074237752028440 (-51).

(** pi/2 in double precision. *)
Definition half_pi64 : float64 := S754_finite false 7074237752028440 (-52).

(** 180.0 = M360 * 2^-45, and -180.0. *)
Definition f180 : float64 := S754_finite false 6333186975989760 (-45).
Definition f_minus_180 : float64 := S754_finite true 6333186975989760 (-45).

(** -1.0 <= x <= 1.0 *)
Definition in_unit_interval (x : float64) : bool :=
  SFleb (of_Z (-1)) x && SFleb x (of_Z 1).

(** A float64 in [0, pi64]. *)
Definition angle_0_pi (r : float64) : bool :=
  valid_binary prec emax r && SFleb (S754_zero false) r && SFleb r pi64.

(** What the script needs of the C library's [acos]: on [-1, 1] it
    returns a float64 between 0 and the float nearest to pi. *)
Definition acos_in_range (acos : float64 -> float64) : Prop :=
  forall x, in_unit_interval x = true -> angle_0_pi (acos x) = true.

(** -180.0 <= d <= 180.0 *)
Definition within_180 (d : float64) : bool :=
  SFleb f_minus_180 d && SFleb d f180.

(** The shift record [mrs] holds the integer [m0] shifted right by [k]
    bits: its mantissa is the quotient, and its two flags are clear
    whenever no set bit was shifted out. *)
Definition shifted (m0 k : Z) (mrs : shr_record) : Prop :=
  0 <= shr_m mrs /\
  shr_m mrs * 2 ^ k <= m0 < (shr_m mrs + 1) * 2 ^ k /\
  (m0 = shr_m mrs * 2 ^ k -> shr_r mrs = false /\ shr_s mrs = false).

(** A zero, or a finite float of magnitude at most [B * 2^eb]. *)
Definition bounded_by (B eb : Z) (x : float64) : Prop :=
  match x with
  | S754_zero _ => True
  | S754_finite _ p e => e <= eb /\ Zpos p <= B * 2 ^ (eb - e)
  | _ => False
  end.

(** A coarse stand-in for the C library's [acos], right at -1, 0 and 1:
    pi at and below -1, +0 at and above 1, pi/2 in between. *)
Definition acos_coarse (x : float64) : float64 :=
  if SFleb x (of_Z (-1)) then pi64
  else if SFltb x (of_Z 1) then half_pi64
  else S754_zero false.

(** A point with integer coordinates. *)
Definition ipt (x y z : Z) : vec3 float64 := V3 (of_Z x) (of_Z y) (of_Z z).

(** -2^-33 *)
Definition minus_2p_33 : float64 := S754_finite true 4503599627370496 (-85).

(** Four points close to the planar trans position: the first three span
    the plane x = 0 and the fourth lies 2^-33 off it, so that no three of
    them are collinear and the dihedral in exact arithmetic is about
    -179.9999999933 degrees. *)
Definition T1 : vec3 float64 := ipt 0 0 0.
Definition T2 : vec3 float64 := ipt 0 1 0.
Definition T3 : vec3 float64 := ipt 0 1 1.
Definition T4 : vec3 float64 := V3 minus_2p_33 (of_Z 2) (of_Z 1).

End Binary64Range.

(** ** Sample inputs in binary64 *)

Module Samples64.
Import Binary64 Binary64Libm Binary64Range.

(** The float library of the sample runs. *)
Definition libm_coarse : Libm float64 := float64_libm acos_coarse.

(** A stand-in for Python's float formatting that keeps the format spec
    and tells NaN from the numbers. *)
Definition show64 (spec : string) (x : float64) : string :=
  match x with
  | S754_nan => "<" ++ spec ++ ":nan>"
  | _ => "<" ++ spec ++ ">"
  end.

Definition molecule64 (a b c d : vec3 float64) : Atoms float64 unit unit unit :=
  mkAtoms [("C", a); ("C", b); ("C", c); ("H", d)] tt tt None None [] None.

(** Four atoms whose planes are perpendicular, and four atoms of which
    the first three lie on the x axis. *)
Definition bent64 : Atoms float64 unit unit unit :=
  molecule64 (ipt 1 0 0) (ipt 0 0 0) (ipt 0 0 1) (ipt 0 1 1).
Definition straight64 : Atoms float64 unit unit unit :=
  molecule64 (ipt 0 0 0) (ipt 1 0 0) (ipt 2 0 0) (ipt 2 1 0).

(** Collaborators that succeed at once: the reader returns the sample,
    the optimiser leaves the atoms where they are, the energy is 0. *)
Definition read_bent64 (path : string) : M (Atoms float64 unit unit unit) := ret bent64.
Definition bfgs_id64 (a : Atoms float64 unit unit unit) : M (Atoms float64 unit unit unit) :=
  ret a.
Definition energy_zero64 (a : Atoms float64 unit unit unit) : M float64 :=
  ret (S754_zero false).

(** [--dihedral_indices 1 2 3 4], without and with [--dihedral_angle 400]. *)
Definition freeze_args64 : Args float64 :=
  mkArgs "in.xyz" "out.xyz" (of_Z 0) (of_Z 1) (Some (1, 2, 3, 4)%Z) None.

End Samples64.

(** * Properties *)

(** ** calc_dihedral over exact arithmetic *)

Module GeometryFacts.
Import Exact RealGeometry Samples.
Local Open Scope R_scope.

Lemma Rltb_true a b : a < b -> Rltb a b = true.
Proof. intros H. unfold Rltb. destruct (Rlt_dec a b); [reflexivity | contradiction]. Qed.

Lemma Rltb_false a b : ~ a < b -> Rltb a b = false.
Proof. intros H. unfold Rltb. destruct (Rlt_dec a b); [contradiction | reflexivity]. Qed.

Lemma Reqb_true a b : a = b -> Reqb a b = true.
Proof. intros H. unfold Reqb. destruct (Req_dec_T a b); [reflexivity | contradiction]. Qed.

Lemma Reqb_false a b : a <> b -> Reqb a b = false.
Proof. intros H. unfold Reqb. destruct (Req_dec_T a b); [contradiction | reflexivity]. Qed.

(** *** NaN is absorbing *)

Lemma dot_nan_l v : dot vnan v = XNaN.
Proof. reflexivity. Qed.

Lemma dot_nan_r v : dot v vnan = XNaN.
Proof. destruct v as [a b c]; destruct a, b, c; reflexivity. Qed.

Lemma cross_nan_l v : cross vnan v = vnan.
Proof. reflexivity. Qed.

Lemma cross_nan_r v : cross v vnan = vnan.
Proof. destruct v as [a b c]; destruct a, b, c; reflexivity. Qed.

(** *** Finite vectors stay finite *)



Lemma rdot_self_nonneg a : 0 <= rdot a a.
Proof. unfold rdot. nra. Qed.



Lemma rnorm_pos a : a <> rzero -> 0 < rnorm a.
Proof.
  intros H. unfold rnorm. apply sqrt_lt_R0.
  destruct a as [x y z]. unfold rdot; cbn.
  destruct (Req_dec_T x 0) as [Hx|Hx]; [|nra].
  destruct (Req_dec_T y 0) as [Hy|Hy]; [|nra].
  destruct (Req_dec_T z 0) as [Hz|Hz]; [|nra].
  exfalso. apply H. unfold rzero. now subst.
Qed.





Lemma nan_propagates (b n1 n2 : vec3 xreal) :
  n1 = vnan \/ n2 = vnan ->
  (let phi := arccos (clip (dot n1 n2) (fconst (-1)) (fconst 1)) in
   let sign := np_sign (dot b (cross n1 n2)) in
   degrees (if fne sign (fconst 0) then fmul phi sign else phi)) = XNaN.
Proof.
  intros [-> | ->]; cbv zeta.
  - rewrite cross_nan_l, dot_nan_l, dot_nan_r. reflexivity.
  - rewrite cross_nan_r, !dot_nan_r. reflexivity.
Qed.


(** *** The finite branch *)

Lemma clamp_bounds x : -1 <= clamp x <= 1.
Proof. unfold clamp, Rmin, Rmax. repeat destruct (Rle_dec _ _); lra. Qed.

Lemma clip_fin (c : R) : clip (XFin c) (fconst (-1)) (fconst 1) = XFin (clamp c).
Proof.
  unfold clip, np_max, np_min, fisnan, fgt, clamp; cbn.
  rewrite (Reqb_true c c) by reflexivity. cbn.
  unfold Rmax, Rmin. destruct (Rle_dec c (-1)).
  - rewrite Rltb_false by lra. cbn. rewrite Reqb_true by reflexivity. cbn.
    rewrite Rltb_true by lra. destruct (Rle_dec (-1) 1); [reflexivity | lra].
  - rewrite Rltb_true by lra. cbn. rewrite (Reqb_true c c) by reflexivity. cbn.
    destruct (Rle_dec c 1).
    + destruct (Rlt_dec c 1) as [L|L].
      * rewrite Rltb_true by lra. reflexivity.
      * rewrite Rltb_false by lra. f_equal. lra.
    + rewrite Rltb_false by lra. reflexivity.
Qed.

Lemma arccos_fin (c : R) : -1 <= c <= 1 -> arccos (XFin c) = XFin (acos c).
Proof. intros H. cbn. rewrite !Rltb_false by lra. reflexivity. Qed.



(** *** Unit normals *)

Lemma runit_unit a : a <> rzero -> rdot (runit a) (runit a) = 1.
Proof.
  intros H. pose proof (rnorm_pos a H) as Hp.
  assert (Hs : rnorm a * rnorm a = rdot a a).
  { unfold rnorm. apply sqrt_sqrt. apply rdot_self_nonneg. }
  destruct a as [x y z]. unfold runit, rdot in *; cbn in *.
  set (s := rnorm (V3 x y z)) in *.
  replace (x / s * (x / s) + y / s * (y / s) + z / s * (z / s))
    with ((x * x + y * y + z * z) / (s * s)) by (field; lra).
  rewrite <- Hs. field. lra.
Qed.

(** Lagrange's identity. *)
Lemma lagrange u v :
  rdot (rcross u v) (rcross u v) = rdot u u * rdot v v - rdot u v * rdot u v.
Proof. destruct u, v; unfold rdot, rcross; cbn; ring. Qed.

Lemma rdot_self_zero a : rdot a a = 0 -> a = rzero.
Proof.
  destruct a as [x y z]; unfold rdot, rzero; cbn; intros H.
  pose proof (Rle_0_sqr x) as Hx. pose proof (Rle_0_sqr y) as Hy.
  pose proof (Rle_0_sqr z) as Hz. unfold Rsqr in Hx, Hy, Hz.
  assert (x = 0) by (apply Rsqr_0_uniq; unfold Rsqr; lra).
  assert (y = 0) by (apply Rsqr_0_uniq; unfold Rsqr; lra).
  assert (z = 0) by (apply Rsqr_0_uniq; unfold Rsqr; lra). now subst.
Qed.

Lemma rdot_zero_r b : rdot b rzero = 0.
Proof. destruct b; unfold rdot, rzero; cbn; ring. Qed.

Lemma unit_dot_bound u v : rdot u u = 1 -> rdot v v = 1 -> -1 <= rdot u v <= 1.
Proof.
  intros Hu Hv. pose proof (lagrange u v) as L. rewrite Hu, Hv in L.
  pose proof (rdot_self_nonneg (rcross u v)). nra.
Qed.

Lemma parallel_cross u v :
  rdot u u = 1 -> rdot v v = 1 -> rdot u v * rdot u v = 1 -> rcross u v = rzero.
Proof.
  intros Hu Hv Hc. apply rdot_self_zero. rewrite lagrange, Hu, Hv. lra.
Qed.

Lemma acos_lt_PI x : -1 < x -> acos x < PI.
Proof.
  intros Hx. destruct (Rle_dec x 1) as [H1|H1].
  - destruct (acos_bound x) as [_ Hb]. destruct Hb as [Hlt|Heq]; [exact Hlt|].
    exfalso. pose proof (cos_acos x ltac:(lra)) as Hc. rewrite Heq, cos_PI in Hc. lra.
  - unfold acos. destruct (Rle_dec x (-1)); [lra|]. destruct (Rle_dec 1 x); [|lra].
    apply PI_RGT_0.
Qed.

Lemma acos_m1 : acos (-1) = PI.
Proof. replace (-1) with (Ropp 1) by lra. rewrite acos_opp, acos_1. lra. Qed.

Lemma sgn_cases t :
  (0 < t /\ sgn t = 1) \/ (t < 0 /\ sgn t = -1) \/ (t = 0 /\ sgn t = 0).
Proof.
  unfold sgn. destruct (Rlt_dec 0 t); [left; split; [assumption|reflexivity]|].
  destruct (Rlt_dec t 0); [right; left; split; [assumption|reflexivity]|].
  right; right. split; [lra|reflexivity].
Qed.

Lemma clamp_le_m1 c : clamp c <= -1 -> c <= -1.
Proof. unfold clamp, Rmin, Rmax. repeat destruct (Rle_dec _ _); lra. Qed.

Lemma clamp_id c : -1 <= c <= 1 -> clamp c = c.
Proof. unfold clamp, Rmin, Rmax. repeat destruct (Rle_dec _ _); lra. Qed.

Lemma deg_factor : 0 < 180 / PI /\ PI * (180 / PI) = 180.
Proof.
  pose proof PI_RGT_0. split.
  - apply Rdiv_lt_0_compat; lra.
  - field. lra.
Qed.

Lemma dihedral_deg_range p1 p2 p3 p4 :
  nondegenerate p1 p2 p3 p4 -> -180 < dihedral_deg p1 p2 p3 p4 <= 180.
Proof.
  intros [H1 H2].
  pose proof (runit_unit _ H1) as U1. pose proof (runit_unit _ H2) as U2.
  destruct deg_factor as [Kpos Keq]. set (k := 180 / PI) in *.
  unfold dihedral_deg. fold k.
  pose proof (acos_bound (clamp (rdot (runit (normal1 p1 p2 p3))
                                      (runit (normal2 p2 p3 p4))))) as Hb.
  unfold signed_angle, unsigned_angle, orientation.
  set (u := runit (normal1 p1 p2 p3)) in *. set (v := runit (normal2 p2 p3 p4)) in *.
  set (phi := acos (clamp (rdot u v))) in *.
  destruct (sgn_cases (rdot (rsub p3 p2) (rcross u v))) as [[Ht ->]|[[Ht ->]|[Ht ->]]].
  - destruct (Req_dec_T 1 0); [lra|]. nra.
  - destruct (Req_dec_T (-1) 0); [lra|].
    assert (phi < PI).
    { apply acos_lt_PI. destruct (Rlt_dec (-1) (clamp (rdot u v))) as [L|L]; [exact L|].
      exfalso. assert (Hc : rdot u v <= -1) by (apply clamp_le_m1; lra).
      pose proof (unit_dot_bound u v U1 U2) as B.
      assert (E : rdot u v * rdot u v = 1) by nra.
      rewrite (parallel_cross u v U1 U2 E), rdot_zero_r in Ht. lra. }
    nra.
  - destruct (Req_dec_T 0 0); [|lra]. nra.
Qed.

(** *** When the sign is zero *)

Lemma double_cross a b c :
  rcross (rcross a b) (rcross b c) =
  V3 (rdot a (rcross b c) * vx b) (rdot a (rcross b c) * vy b)
     (rdot a (rcross b c) * vz b).
Proof. destruct a, b, c; unfold rcross, rdot; cbn; f_equal; ring. Qed.

Lemma rcross_runit a b :
  a <> rzero -> b <> rzero ->
  rcross (runit a) (runit b) =
  V3 (vx (rcross a b) / (rnorm a * rnorm b)) (vy (rcross a b) / (rnorm a * rnorm b))
     (vz (rcross a b) / (rnorm a * rnorm b)).
Proof.
  intros Ha Hb. pose proof (rnorm_pos a Ha). pose proof (rnorm_pos b Hb).
  destruct a as [x y z], b as [x' y' z']. unfold runit, rcross; cbn.
  f_equal; field; lra.
Qed.

Lemma orientation_zero p1 p2 p3 p4 :
  nondegenerate p1 p2 p3 p4 -> orientation p1 p2 p3 p4 = 0 ->
  rcross (runit (normal1 p1 p2 p3)) (runit (normal2 p2 p3 p4)) = rzero.
Proof.
  intros [H1 H2] Ho. unfold orientation in Ho.
  destruct (sgn_cases (rdot (rsub p3 p2)
     (rcross (runit (normal1 p1 p2 p3)) (runit (normal2 p2 p3 p4)))))
    as [[_ E]|[[_ E]|[Ht _]]];
    [rewrite E in Ho; lra | rewrite E in Ho; lra |].
  pose proof (rnorm_pos _ H1) as P1. pose proof (rnorm_pos _ H2) as P2.
  rewrite rcross_runit in Ht |- * by assumption.
  unfold normal1, normal2 in *.
  set (b1 := rsub p2 p1) in *. set (b2 := rsub p3 p2) in *. set (b3 := rsub p4 p3) in *.
  rewrite double_cross in Ht |- *. cbn [vx vy vz] in *.
  set (T := rdot b1 (rcross b2 b3)) in *.
  set (K := rnorm (rcross b1 b2) * rnorm (rcross b2 b3)) in *.
  assert (HK : 0 < K) by (unfold K; apply Rmult_lt_0_compat; assumption).
  assert (Hb2 : 0 < rdot b2 b2).
  { destruct (rdot_self_nonneg b2) as [L|E]; [exact L|].
    exfalso. apply H1. symmetry in E. apply rdot_self_zero in E. rewrite E.
    destruct b1; unfold rcross, rzero; cbn; f_equal; ring. }
  assert (HT : T = 0).
  { unfold rdot in Ht; cbn [vx vy vz] in Ht.
    assert (E : T * rdot b2 b2 / K = 0).
    { rewrite <- Ht. unfold rdot. field. lra. }
    assert (E2 : T * rdot b2 b2 = 0).
    { apply (Rmult_eq_reg_r (/ K)); [| apply Rinv_neq_0_compat; lra].
      rewrite Rmult_0_l. exact E. }
    apply Rmult_integral in E2. destruct E2; [assumption | lra]. }
  rewrite HT. unfold rzero. f_equal; field; lra.
Qed.

(** A zero sign happens only in the planar cases, phi = 0 or phi = pi. *)
Lemma orientation_zero_angle p1 p2 p3 p4 :
  nondegenerate p1 p2 p3 p4 -> orientation p1 p2 p3 p4 = 0 ->
  unsigned_angle p1 p2 p3 p4 = 0 \/ unsigned_angle p1 p2 p3 p4 = PI.
Proof.
  intros H Ho. pose proof (orientation_zero _ _ _ _ H Ho) as Hc.
  destruct H as [H1 H2].
  pose proof (runit_unit _ H1) as U1. pose proof (runit_unit _ H2) as U2.
  unfold unsigned_angle.
  set (u := runit (normal1 p1 p2 p3)) in *. set (v := runit (normal2 p2 p3 p4)) in *.
  pose proof (lagrange u v) as L. rewrite Hc, U1, U2 in L.
  replace (rdot rzero rzero) with 0 in L by (unfold rdot, rzero; cbn; ring).
  assert (E : (rdot u v - 1) * (rdot u v + 1) = 0) by lra.
  apply Rmult_integral in E. destruct E as [E|E].
  - left. replace (rdot u v) with 1 by lra. rewrite clamp_id by lra. apply acos_1.
  - right. replace (rdot u v) with (-1) by lra. rewrite clamp_id by lra. apply acos_m1.
Qed.


(** *** Reversing the order of the points *)











End GeometryFacts.

(** ** The modulo normalisation of lines 139-141 *)

Module NormalizeFacts.
Import Exact Binary64.

(** *** Exact arithmetic *)

Section OverReals.
Local Open Scope R_scope.

Lemma Rtrunc_bound q :
  (q < 0 -> q <= IZR (Rtrunc q) < q + 1) /\ (0 <= q -> q - 1 < IZR (Rtrunc q) <= q).
Proof.
  unfold Rtrunc. split; intros H.
  - rewrite GeometryFacts.Rltb_true by assumption. rewrite opp_IZR.
    pose proof (Zfloor_bound (- q)). lra.
  - rewrite GeometryFacts.Rltb_false by lra. pose proof (Zfloor_bound q). lra.
Qed.

(** [fmod(x, 360)] has the sign of [x] and a magnitude below 360. *)
Lemma xfmod_360 (x : R) :
  exists m k, xfmod (XFin x) (XFin 360) = XFin m /\ x = m + 360 * IZR k /\
              (x < 0 -> -360 < m <= 0) /\ (0 <= x -> 0 <= m < 360).
Proof.
  exists (x - 360 * IZR (Rtrunc (x / 360))), (Rtrunc (x / 360)).
  split; [cbn; rewrite GeometryFacts.Reqb_false by lra; reflexivity|].
  split; [ring|].
  destruct (Rtrunc_bound (x / 360)) as [Bn Bp].
  split; intros H.
  - assert (Q : x / 360 < 0) by (unfold Rdiv; nra).
    specialize (Bn Q).
    replace x with (360 * (x / 360)) at 1 3 by field. nra.
  - assert (Q : 0 <= x / 360) by (unfold Rdiv; nra).
    specialize (Bp Q).
    replace x with (360 * (x / 360)) at 1 3 by field. nra.
Qed.

Lemma normalize_exact (x : R) :
  exists r k,
    normalize_to_0_360 (XFin x) = XFin r /\ 0 <= r < 360 /\ x = r + 360 * IZR k.
Proof.
  destruct (xfmod_360 x) as (m & k & E & C & Bn & Bp).
  unfold normalize_to_0_360, py_mod.
  cbn [ffmod fconst feq flt fadd fcopysign xreal_arith].
  rewrite E. unfold fne. cbn [feq xreal_arith xeq xlt].
  rewrite (GeometryFacts.Reqb_false 360 0) by lra.
  rewrite (GeometryFacts.Rltb_false 360 0) by lra.
  destruct (Req_dec_T m 0) as [Z|NZ].
  - rewrite GeometryFacts.Reqb_true by assumption. cbn.
    rewrite (GeometryFacts.Rltb_false 360 0) by lra. rewrite Rabs_R0.
    rewrite GeometryFacts.Rltb_false by lra.
    exists 0, k. split; [reflexivity|]. split; [lra|]. lra.
  - rewrite GeometryFacts.Reqb_false by assumption. cbn [negb xorb].
    destruct (Rlt_dec m 0) as [L|L].
    + rewrite (GeometryFacts.Rltb_true m 0) by assumption. cbn.
      assert (x < 0).
      { destruct (Rlt_dec x 0); [assumption|].
        exfalso. assert (P : 0 <= x) by lra. specialize (Bp P). lra. }
      specialize (Bn H).
      rewrite GeometryFacts.Rltb_false by lra.
      exists (m + 360), (k - 1)%Z. split; [reflexivity|]. split; [lra|].
      rewrite minus_IZR. lra.
    + rewrite (GeometryFacts.Rltb_false m 0) by assumption. cbn.
      rewrite (GeometryFacts.Rltb_false m 0) by assumption.
      assert (0 <= x) by (destruct (Rlt_dec x 0) as [N|N]; [specialize (Bn N); lra | lra]).
      specialize (Bp H).
      exists m, k. split; [reflexivity|]. split; [lra|]. lra.
Qed.

End OverReals.

(** *** Binary64 *)

Section OverBinary64.
Local Open Scope Z_scope.

(** Aligning a mantissa to a smaller exponent multiplies it by a power of 2. *)
Lemma shl_align_spec (m : positive) (e e' : Z) :
  snd (shl_align m e e') = Z.min e e' /\
  Zpos (fst (shl_align m e e')) = Zpos m * 2 ^ (e - Z.min e e').
Proof.
  unfold shl_align. destruct (e' - e) as [|d|d] eqn:E; cbn [fst snd].
  - split; [lia|]. replace (e - Z.min e e') with 0 by lia. lia.
  - split; [lia|]. replace (e - Z.min e e') with 0 by lia. lia.
  - split; [lia|]. replace (e - Z.min e e') with (Zpos d) by lia.
    change (Pos.iter xO m d) with (shift_pos d m).
    rewrite shift_pos_correct. change (Z.pow_pos 2 d) with (2 ^ Zpos d). lia.
Qed.

(** Rounding a number that carries a plus sign never yields a negative float. *)
Lemma binary_round_aux_nonneg (m e : Z) (l : location) :
  SFltb (binary_round_aux prec emax false m e l) (S754_zero false) = false.
Proof.
  unfold binary_round_aux.
  destruct (shr_fexp prec emax m e l) as [mrs' e'].
  destruct (shr_fexp prec emax _ e' loc_Exact) as [mrs'' e''].
  destruct (shr_m mrs''); [reflexivity | | reflexivity].
  destruct (e'' <=? emax - prec); reflexivity.
Qed.

Lemma binary_normalize_nonneg (z e : Z) :
  0 <= z -> SFltb (binary_normalize prec emax z e false) (S754_zero false) = false.
Proof.
  intros Hz. destruct z as [|p|p]; [reflexivity | | lia].
  unfold binary_normalize, binary_round.
  destruct (shl_align p e _) as [mz ez]. apply binary_round_aux_nonneg.
Qed.

Lemma fconst_360 : fconst 360 = f360.
Proof. reflexivity. Qed.

Lemma fconst_0 : @fconst float64 _ 0 = S754_zero false.
Proof. reflexivity. Qed.

(** Adding 360 to a negative float of magnitude at most 360 gives no
    negative float. *)
Lemma add_360_nonneg (m : positive) (e : Z) :
  Zpos m * 2 ^ (e - Z.min e (-44)) <= 6333186975989760 * 2 ^ (-44 - Z.min e (-44)) ->
  SFltb (SFadd prec emax (S754_finite true m e) f360) (S754_zero false) = false.
Proof.
  intros H. unfold f360, SFadd. apply binary_normalize_nonneg.
  destruct (shl_align_spec m e (Z.min e (-44))) as [_ E1].
  destruct (shl_align_spec 6333186975989760 (-44) (Z.min e (-44))) as [_ E2].
  rewrite E1, E2. cbn [cond_Zopp].
  replace (Z.min e (Z.min e (-44))) with (Z.min e (-44)) by lia.
  replace (Z.min (-44) (Z.min e (-44))) with (Z.min e (-44)) by lia.
  lia.
Qed.

Lemma exact_float_cases (s : bool) (r e : Z) :
  (exact_float s r e = S754_zero s) \/
  (exists p m e',
      r = Zpos p /\ exact_float s r e = S754_finite s m e' /\ e' <= e /\
      Zpos m * 2 ^ (e' - Z.min e' (-44)) = Zpos p * 2 ^ (e - Z.min e' (-44))).
Proof.
  destruct r as [|p|p]; [left; reflexivity | | left; reflexivity].
  right. unfold exact_float.
  pose proof (shl_align_spec p e (fexp prec emax (Zpos (digits2_pos p) + e))) as [E1 E2].
  destruct (shl_align p e _) as [m e'] eqn:S. cbn [fst snd] in *.
  exists p, m, e'. repeat split; [lia|].
  rewrite E2, E1.
  set (t := fexp prec emax (Z.pos (digits2_pos p) + e)).
  rewrite <- Z.mul_assoc, <- Z.pow_add_r by lia. f_equal. f_equal. lia.
Qed.

(** The shapes [fmod(x, 360.0)] can take. *)
Lemma fmod_360_cases (x : float64) :
  fmod x f360 = S754_nan \/ (exists s, fmod x f360 = S754_zero s) \/
  (exists m e, fmod x f360 = S754_finite false m e) \/
  (exists m e, fmod x f360 = S754_finite true m e /\
     Zpos m * 2 ^ (e - Z.min e (-44)) <= 6333186975989760 * 2 ^ (-44 - Z.min e (-44))).
Proof.
  destruct x as [s|s| |s m e].
  - right; left. exists s. reflexivity.
  - left. reflexivity.
  - left. reflexivity.
  - unfold fmod, f360.
    set (E := Z.min e (-44)).
    set (r := (Zpos m * 2 ^ (e - E)) mod (6333186975989760 * 2 ^ (-44 - E))).
    assert (Hr : 0 <= r < 6333186975989760 * 2 ^ (-44 - E)).
    { apply Z.mod_pos_bound.
      assert (0 < 2 ^ (-44 - E)) by (apply Z.pow_pos_nonneg; lia). lia. }
    destruct (exact_float_cases s r E) as [Z0 | (p & m' & e' & Hp & Hf & He & Hv)].
    + right; left. exists s. exact Z0.
    + rewrite Hf. destruct s.
      * right; right; right. exists m', e'. split; [reflexivity|].
        rewrite Hv, <- Hp.
        replace (-44 - Z.min e' (-44)) with ((-44 - E) + (E - Z.min e' (-44))) by lia.
        rewrite Z.pow_add_r by lia.
        assert (0 < 2 ^ (E - Z.min e' (-44))) by (apply Z.pow_pos_nonneg; lia).
        nia.
      * right; right; left. exists m', e'. reflexivity.
Qed.

Lemma py_mod_360_not_negative (x : float64) :
  flt (py_mod x (fconst 360)) (fconst 0) = false.
Proof.
  unfold py_mod. rewrite fconst_360, fconst_0.
  change (ffmod x f360) with (fmod x f360).
  change (feq f360 (S754_zero false)) with false. cbv iota.
  destruct (fmod_360_cases x) as [E | [(s & E) | [(m & e & E) | (m & e & E & B)]]];
    rewrite E.
  - reflexivity.
  - destruct s; reflexivity.
  - reflexivity.
  - change (fne (S754_finite true m e) (S754_zero false)) with true.
    change (flt f360 (S754_zero false)) with false.
    change (flt (S754_finite true m e) (S754_zero false)) with true.
    cbn [xorb]. cbv iota.
    apply (add_360_nonneg m e B).
Qed.

(** *** Rounding below 360 *)

Lemma digits2_size (p : positive) : digits2_pos p = Pos.size p.
Proof. induction p; cbn; congruence. Qed.

Lemma digits2_bounds (p : positive) :
  2 ^ (Zpos (digits2_pos p) - 1) <= Zpos p < 2 ^ Zpos (digits2_pos p).
Proof.
  induction p as [p IH|p IH|].
  - cbn [digits2_pos]. rewrite Pos2Z.inj_succ.
    replace (Z.succ (Zpos (digits2_pos p)) - 1) with (Zpos (digits2_pos p) - 1 + 1) by lia.
    rewrite Z.pow_succ_r by lia. rewrite Z.pow_add_r by lia. lia.
  - cbn [digits2_pos]. rewrite Pos2Z.inj_succ.
    replace (Z.succ (Zpos (digits2_pos p)) - 1) with (Zpos (digits2_pos p) - 1 + 1) by lia.
    rewrite Z.pow_succ_r by lia. rewrite Z.pow_add_r by lia. lia.
  - cbn. lia.
Qed.

Lemma shr_1_m (mrs : shr_record) :
  0 <= shr_m mrs -> shr_m (shr_1 mrs) = shr_m mrs / 2.
Proof.
  destruct mrs as [m r s]. cbn [shr_m]. intros H. unfold shr_1.
  destruct m as [|[p|p|]|p]; cbn [shr_m]; try reflexivity; try lia.
  - rewrite (Pos2Z.inj_xI p). Z.div_mod_to_equations. lia.
  - rewrite (Pos2Z.inj_xO p). Z.div_mod_to_equations. lia.
Qed.

Lemma iter_shr_1_m (n : positive) : forall mrs : shr_record,
  0 <= shr_m mrs -> shr_m (iter_pos shr_1 n mrs) = shr_m mrs / 2 ^ Zpos n.
Proof.
  induction n as [n IH|n IH|]; intros mrs H; cbn [iter_pos].
  - assert (H1 : 0 <= shr_m (shr_1 mrs)) by (rewrite shr_1_m by assumption; apply Z.div_pos; lia).
    assert (H2 : 0 <= shr_m (iter_pos shr_1 n (shr_1 mrs)))
      by (rewrite IH by assumption; apply Z.div_pos; [assumption | apply Z.pow_pos_nonneg; lia]).
    rewrite IH, IH, shr_1_m by assumption.
    rewrite !Z.div_div by (try apply Z.pow_pos_nonneg; lia).
    replace (2 ^ Zpos n~1) with (2 * (2 ^ Zpos n * 2 ^ Zpos n)); [reflexivity|].
    rewrite (Pos2Z.inj_xI n).
    replace (2 * Zpos n + 1) with (1 + Zpos n + Zpos n) by lia.
    rewrite !Z.pow_add_r by lia. lia.
  - assert (H2 : 0 <= shr_m (iter_pos shr_1 n mrs))
      by (rewrite IH by assumption; apply Z.div_pos; [assumption | apply Z.pow_pos_nonneg; lia]).
    rewrite IH, IH by assumption.
    rewrite !Z.div_div by (try apply Z.pow_pos_nonneg; lia).
    replace (2 ^ Zpos n~0) with (2 ^ Zpos n * 2 ^ Zpos n); [reflexivity|].
    rewrite (Pos2Z.inj_xO n).
    replace (2 * Zpos n) with (Zpos n + Zpos n) by lia.
    now rewrite Z.pow_add_r by lia.
  - rewrite shr_1_m by assumption. reflexivity.
Qed.

(** One rounding shift: the mantissa is divided (rounding down) by the
    power of two that brings it to the canonical exponent. *)
Lemma shr_fexp_spec (m e : Z) (l : location) :
  0 <= m ->
  let '(mrs, e') := shr_fexp prec emax m e l in
  let n := Z.max 0 (fexp prec emax (Zdigits2 m + e) - e) in
  e' = e + n /\ shr_m mrs = m / 2 ^ n.
Proof.
  intros Hm. unfold shr_fexp, shr.
  assert (Hr : shr_m (shr_record_of_loc m l) = m) by (destruct l as [|[]]; reflexivity).
  destruct (fexp prec emax (Zdigits2 m + e) - e) as [|n|n] eqn:E.
  - cbn [Z.max]. rewrite Hr. split; [lia|]. now rewrite Z.div_1_r.
  - replace (Z.max 0 (Zpos n)) with (Zpos n) by lia. split; [reflexivity|].
    rewrite iter_shr_1_m by (rewrite Hr; assumption). now rewrite Hr.
  - replace (Z.max 0 (Zneg n)) with 0 by lia. rewrite Hr. split; [lia|].
    now rewrite Z.div_1_r.
Qed.

Lemma round_nearest_even_bound (m : Z) (l : location) :
  m <= round_nearest_even m l <= m + 1.
Proof. unfold round_nearest_even. destruct l as [|[]]; try destruct (Z.even m); lia. Qed.

Lemma M360_lt : M360 < 2 ^ 53.
Proof. reflexivity. Qed.

(** A non-negative integer below 360 * 2^-e has at most 9 - e binary digits. *)
Lemma digits_below_360 (m e : Z) :
  0 <= m -> e <= -44 -> m <= M360 * 2 ^ (-44 - e) -> Zdigits2 m + e <= 9.
Proof.
  intros Hm He Hb. destruct m as [|p|p]; [cbn; lia | | lia].
  cbn [Zdigits2]. pose proof (digits2_bounds p) as [L _].
  assert (P : 0 < 2 ^ (-44 - e)) by (apply Z.pow_pos_nonneg; lia).
  assert (Hlt : 2 ^ (Zpos (digits2_pos p) - 1) < 2 ^ (9 - e)).
  { replace (9 - e) with (53 + (-44 - e)) by lia. rewrite Z.pow_add_r by lia.
    pose proof M360_lt. nia. }
  apply Z.pow_lt_mono_r_iff in Hlt; lia.
Qed.

Lemma fexp_below_360 (m e : Z) :
  0 <= m -> e <= -44 -> m <= M360 * 2 ^ (-44 - e) ->
  fexp prec emax (Zdigits2 m + e) <= -44.
Proof.
  intros Hm He Hb. pose proof (digits_below_360 m e Hm He Hb).
  unfold fexp, SpecFloat.emin, prec, emax. lia.
Qed.

(** One shift keeps the bound, at the new exponent. *)
Lemma shr_fexp_below_360 (m e : Z) (l : location) (strict : bool) :
  0 <= m -> e <= -44 ->
  (if strict then m < M360 * 2 ^ (-44 - e) else m <= M360 * 2 ^ (-44 - e)) ->
  let '(mrs, e') := shr_fexp prec emax m e l in
  e' <= -44 /\ 0 <= shr_m mrs /\
  (if strict then shr_m mrs < M360 * 2 ^ (-44 - e') else shr_m mrs <= M360 * 2 ^ (-44 - e')).
Proof.
  intros Hm He Hb.
  assert (Hb' : m <= M360 * 2 ^ (-44 - e)) by (destruct strict; lia).
  pose proof (fexp_below_360 m e Hm He Hb') as Hf.
  pose proof (shr_fexp_spec m e l Hm) as S.
  destruct (shr_fexp prec emax m e l) as [mrs e'].
  set (n := Z.max 0 (fexp prec emax (Zdigits2 m + e) - e)) in *.
  destruct S as [-> ->].
  assert (Hn : 0 <= n) by (unfold n; lia).
  assert (P : 0 < 2 ^ n) by (apply Z.pow_pos_nonneg; lia).
  split; [unfold n; lia|].
  split; [apply Z.div_pos; lia|].
  assert (Hq : m / 2 ^ n * 2 ^ n <= m).
  { pose proof (Z.mul_div_le m (2 ^ n) P). lia. }
  assert (E : 2 ^ (-44 - e) = 2 ^ (-44 - (e + n)) * 2 ^ n).
  { rewrite <- Z.pow_add_r by (unfold n; lia). f_equal. lia. }
  rewrite E in Hb.
  assert (P' : 0 < 2 ^ (-44 - (e + n))) by (apply Z.pow_pos_nonneg; unfold n; lia).
  destruct strict; nia.
Qed.

Lemma leb_360_finite (p : positive) (e : Z) :
  e <= -44 -> Zpos p <= M360 * 2 ^ (-44 - e) ->
  SFleb (S754_finite false p e) f360 = true.
Proof.
  intros He Hb. 
  unfold SFleb, SFcompare, f360.
  destruct (Z.compare_spec e (-44)) as [E|L|G]; [|reflexivity|lia].
  subst e. replace (-44 - -44) with 0 in Hb by lia.
  rewrite Z.pow_0_r, Z.mul_1_r in Hb.
  rewrite Pos.compare_cont_spec.
  (destruct (Pos.compare_spec p 6333186975989760) as [E|L|G]; try reflexivity).
  unfold M360 in Hb. lia.
Qed.

(** Rounding a non-negative number below 360 gives a float in [0, 360]. *)
Lemma binary_round_aux_below_360 (m e : Z) (l : location) :
  0 <= m -> e <= -44 -> m < M360 * 2 ^ (-44 - e) ->
  SFleb (S754_zero false) (binary_round_aux prec emax false m e l) = true /\
  SFleb (binary_round_aux prec emax false m e l) f360 = true.
Proof.
  intros Hm He Hb. unfold binary_round_aux.
  pose proof (shr_fexp_below_360 m e l true Hm He Hb) as S1.
  destruct (shr_fexp prec emax m e l) as [mrs' e1].
  destruct S1 as (He1 & Hm0 & Hb0).
  pose proof (round_nearest_even_bound (shr_m mrs') (loc_of_shr_record mrs')) as R.
  set (m1 := round_nearest_even (shr_m mrs') (loc_of_shr_record mrs')) in *.
  assert (Hm1 : 0 <= m1) by lia.
  assert (Hb1 : m1 <= M360 * 2 ^ (-44 - e1)) by lia.
  pose proof (shr_fexp_below_360 m1 e1 loc_Exact false Hm1 He1 Hb1) as S2.
  destruct (shr_fexp prec emax m1 e1 loc_Exact) as [mrs'' e2].
  destruct S2 as (He2 & Hm2 & Hb2).
  destruct (shr_m mrs'') as [|p|p]; [split; reflexivity | | lia].
  replace (e2 <=? emax - prec) with true
    by (symmetry; apply Z.leb_le; unfold emax, prec; lia).
  split; [reflexivity|]. now apply leb_360_finite.
Qed.

Lemma binary_round_below_360 (p : positive) (e : Z) :
  e <= -44 -> Zpos p < M360 * 2 ^ (-44 - e) ->
  SFleb (S754_zero false) (binary_round prec emax false p e) = true /\
  SFleb (binary_round prec emax false p e) f360 = true.
Proof.
  intros He Hb. unfold binary_round.
  pose proof (shl_align_spec p e (fexp prec emax (Zpos (digits2_pos p) + e))) as [E1 E2].
  destruct (shl_align p e _) as [mz ez]. cbn [fst snd] in *.
  apply binary_round_aux_below_360; [lia | lia |].
  rewrite E2. subst ez.
  set (t := fexp prec emax (Zpos (digits2_pos p) + e)) in *.
  replace (-44 - Z.min e t) with ((-44 - e) + (e - Z.min e t)) by lia.
  rewrite Z.pow_add_r by lia.
  assert (0 < 2 ^ (e - Z.min e t)) by (apply Z.pow_pos_nonneg; lia).
  nia.
Qed.

(** [fmod(x, 360.0)] of a finite [x]: a zero, or a float of the sign of
    [x] and of magnitude below 360. *)
Lemma fmod_360_finite (s : bool) (m : positive) (e : Z) :
  fmod (S754_finite s m e) f360 = S754_zero s \/
  exists m' e', fmod (S754_finite s m e) f360 = S754_finite s m' e' /\
                e' <= -44 /\ Zpos m' < M360 * 2 ^ (-44 - e').
Proof.
  unfold fmod, f360.
  set (E := Z.min e (-44)).
  set (r := (Zpos m * 2 ^ (e - E)) mod (6333186975989760 * 2 ^ (-44 - E))).
  assert (Hr : 0 <= r < 6333186975989760 * 2 ^ (-44 - E)).
  { apply Z.mod_pos_bound.
    assert (0 < 2 ^ (-44 - E)) by (apply Z.pow_pos_nonneg; lia). lia. }
  destruct (exact_float_cases s r E) as [Z0 | (p & m' & e' & Hp & Hf & He & Hv)].
  - left. exact Z0.
  - right. exists m', e'. split; [exact Hf|]. split; [lia|].
    replace (Z.min e' (-44)) with e' in Hv by lia.
    rewrite Z.sub_diag, Z.pow_0_r, Z.mul_1_r in Hv. rewrite Hv, <- Hp.
    replace (-44 - e') with ((-44 - E) + (E - e')) by lia.
    rewrite Z.pow_add_r by lia.
    assert (0 < 2 ^ (E - e')) by (apply Z.pow_pos_nonneg; lia).
    unfold M360. nia.
Qed.

Lemma py_mod_360_range (x : float64) :
  is_finite x = true ->
  SFleb (S754_zero false) (py_mod x (fconst 360)) = true /\
  SFleb (py_mod x (fconst 360)) f360 = true.
Proof.
  intros Hx. unfold py_mod. rewrite fconst_360, fconst_0.
  change (ffmod x f360) with (fmod x f360).
  change (feq f360 (S754_zero false)) with false. cbv iota.
  destruct x as [s|s| |s m e]; try discriminate.
  - destruct s; split; reflexivity.
  - destruct (fmod_360_finite s m e) as [E | (m' & e' & E & He & Hb)]; rewrite E.
    + destruct s; split; reflexivity.
    + destruct s.
      * change (fne (S754_finite true m' e') (S754_zero false)) with true.
        change (flt f360 (S754_zero false)) with false.
        change (flt (S754_finite true m' e') (S754_zero false)) with true.
        cbn [xorb]. cbv iota.
        change (fadd (S754_finite true m' e') f360)
          with (SFadd prec emax (S754_finite true m' e') f360).
        unfold SFadd, f360.
        destruct (shl_align_spec m' e' (Z.min e' (-44))) as [_ E1].
        destruct (shl_align_spec 6333186975989760 (-44) (Z.min e' (-44))) as [_ E2].
        rewrite E1, E2. cbn [cond_Zopp].
        replace (Z.min e' (-44)) with e' by lia.
        replace (Z.min e' e') with e' by lia.
        replace (Z.min (-44) e') with e' by lia.
        rewrite Z.sub_diag, Z.pow_0_r, Z.mul_1_r.
        fold M360.
        destruct (- Zpos m' + M360 * 2 ^ (-44 - e')) as [|q|q] eqn:Q; [lia | | lia].
        unfold binary_normalize. apply binary_round_below_360; lia.
      * change (fne (S754_finite false m' e') (S754_zero false)) with true.
        change (flt f360 (S754_zero false)) with false.
        change (flt (S754_finite false m' e') (S754_zero false)) with false.
        cbn [xorb]. cbv iota.
        split; [reflexivity|]. apply leb_360_finite; lia.
Qed.

(** *** [fmod] stays within the format *)

Lemma digits2_shift (d p : positive) :
  Zpos (digits2_pos (Pos.iter xO p d)) = Zpos (digits2_pos p) + Zpos d.
Proof.
  induction d as [|d IH] using Pos.peano_ind.
  - cbn. lia.
  - rewrite Pos.iter_succ. cbn [digits2_pos]. rewrite Pos2Z.inj_succ, IH. lia.
Qed.

Lemma canonical_digits (m : positive) (e : Z) :
  canonical_mantissa prec emax m e = true ->
  Zpos (digits2_pos m) <= 53 /\ -1074 <= e.
Proof.
  unfold canonical_mantissa, fexp, SpecFloat.emin, prec, emax. intros H.
  apply Z.eqb_eq in H. lia.
Qed.

Lemma digits_le_53 (p : positive) : Zpos p < 2 ^ 53 -> Zpos (digits2_pos p) <= 53.
Proof.
  intros H. pose proof (digits2_bounds p) as [L _].
  assert (2 ^ (Zpos (digits2_pos p) - 1) < 2 ^ 53) by lia.
  apply Z.pow_lt_mono_r_iff in H0; lia.
Qed.

Lemma exact_float_valid (s : bool) (r e : Z) :
  0 <= r < 2 ^ 53 -> -1074 <= e <= 971 -> valid_binary prec emax (exact_float s r e) = true.
Proof.
  intros Hr He. destruct r as [|p|p]; [reflexivity | | reflexivity].
  unfold exact_float.
  pose proof (digits_le_53 p ltac:(lia)) as Hd.
  unfold shl_align.
  set (t := fexp prec emax (Zpos (digits2_pos p) + e)).
  assert (Ht : t <= e) by (unfold t, fexp, SpecFloat.emin, prec, emax; lia).
  destruct (t - e) as [|d|d] eqn:E; try lia.
  - assert (t = e) by lia. cbn [valid_binary]. unfold bounded, canonical_mantissa.
    fold t. rewrite H, Z.eqb_refl. cbn [andb]. apply Z.leb_le. unfold emax, prec. lia.
  - cbn [valid_binary]. unfold bounded, canonical_mantissa.
    rewrite digits2_shift.
    replace (Zpos (digits2_pos p) + Zpos d + t) with (Zpos (digits2_pos p) + e) by lia.
    fold t. rewrite Z.eqb_refl. cbn [andb]. apply Z.leb_le. unfold emax, prec. lia.
Qed.

(** On valid floats [fmod] returns a valid float: its result fits the
    format without rounding. *)
Lemma fmod_valid (x y : float64) :
  valid_binary prec emax x = true -> valid_binary prec emax y = true ->
  valid_binary prec emax (fmod x y) = true.
Proof.
  intros Hx Hy.
  destruct x as [sx|sx| |sx mx ex], y as [sy|sy| |sy my ey]; try reflexivity;
    try exact Hx.
  cbn [valid_binary] in Hx, Hy. unfold bounded in Hx, Hy.
  apply andb_true_iff in Hx. destruct Hx as [Cx Bx].
  apply andb_true_iff in Hy. destruct Hy as [Cy By].
  apply canonical_digits in Cx. apply canonical_digits in Cy.
  apply Z.leb_le in Bx. apply Z.leb_le in By. unfold emax, prec in Bx, By.
  pose proof (digits2_bounds mx) as [_ Ux]. pose proof (digits2_bounds my) as [_ Uy].
  assert (Mx : Zpos mx < 2 ^ 53).
  { apply Z.lt_le_trans with (1 := Ux). apply Z.pow_le_mono_r; lia. }
  assert (My : Zpos my < 2 ^ 53).
  { apply Z.lt_le_trans with (1 := Uy). apply Z.pow_le_mono_r; lia. }
  unfold fmod. apply exact_float_valid; [|lia].
  set (e := Z.min ex ey).
  assert (P : 0 < Zpos my * 2 ^ (ey - e)).
  { assert (0 < 2 ^ (ey - e)) by (apply Z.pow_pos_nonneg; unfold e; lia). lia. }
  pose proof (Z.mod_pos_bound (Zpos mx * 2 ^ (ex - e)) _ P) as B.
  split; [lia|].
  destruct (Z.le_ge_cases ex ey) as [L|G].
  - replace e with ex in * by (unfold e; lia).
    rewrite Z.sub_diag, Z.pow_0_r, Z.mul_1_r in *.
    assert (Zpos mx mod (Zpos my * 2 ^ (ey - ex)) <= Zpos mx)
      by (apply Z.mod_le; lia).
    lia.
  - replace e with ey in * by (unfold e; lia).
    rewrite Z.sub_diag, Z.pow_0_r, Z.mul_1_r in *. lia.
Qed.

End OverBinary64.

(** *** The model on known values *)

Example fmod_keeps_sign :
  fmod (S754_finite true 8444249301319680 (-50)) (of_Z 2)
  = S754_finite true 6755399441055744 (-52).      (* fmod(-7.5, 2.0) = -1.5 *)
Proof. reflexivity. Qed.

Example py_mod_minus_90 : py_mod f_minus_90 (fconst 360) = f_270.
Proof. reflexivity. Qed.

Example py_mod_725_5 : py_mod f_725_5 (fconst 360) = f_5_5.
Proof. reflexivity. Qed.

Example py_mod_minus_tenth : py_mod f_minus_tenth (fconst 360) = f_359_9.
Proof. reflexivity. Qed.

Example py_mod_nan : py_mod (S754_infinity false) (fconst 360) = S754_nan.
Proof. reflexivity. Qed.

(** *** The normalisation as a whole *)

Lemma normalize_py_mod (x : float64) :
  normalize_to_0_360 x = py_mod x (fconst 360).
Proof.
  unfold normalize_to_0_360. cbv zeta. now rewrite py_mod_360_not_negative.
Qed.

(** C9 (amended).  On float64, [x % 360] followed by the correction
    [if a < 0: a += 360] equals plain [x % 360] for every input: the
    modulo is never negative, so the correction is dead code.  For finite
    [x] the modulo lies in the closed interval [0, 360]: 360.0 itself is
    reached, so the interval is not [0, 360). *)
Theorem correction_branch_unreachable (x : float64) :
  flt (py_mod x (fconst 360)) (fconst 0) = false /\
  normalize_to_0_360 x = py_mod x (fconst 360) /\
  (is_finite x = true ->
   SFleb (S754_zero false) (py_mod x (fconst 360)) = true /\
   SFleb (py_mod x (fconst 360)) f360 = true).
Proof.
  split; [apply py_mod_360_not_negative|].
  split; [apply normalize_py_mod|].
  apply py_mod_360_range.
Qed.

Lemma correction_branch_unreachable_witness :
  is_finite minus_1e_20 = true /\
  normalize_to_0_360 minus_1e_20 = py_mod minus_1e_20 (fconst 360) /\
  SFleb (py_mod minus_1e_20 (fconst 360)) f360 = true.
Proof.
  split; [reflexivity|].
  destruct (correction_branch_unreachable minus_1e_20) as (_ & E & B).
  split; [exact E|]. apply B. reflexivity.
Defined.

(** C9 as stated fails: [-1e-20 % 360] is 360.0, which is not below 360. *)
Lemma py_mod_reaches_360 :
  py_mod minus_1e_20 (fconst 360) = f360 /\
  flt (py_mod minus_1e_20 (fconst 360)) (fconst 360) = false.
Proof. split; vm_compute; reflexivity. Qed.

(** C5 (amended).  In exact real arithmetic the normalisation maps every
    real [x] to a value of [0, 360) congruent to [x] modulo 360.  On
    float64 the last addition is rounded: for every finite [x] the result
    lies in the closed interval [0, 360]. *)
Theorem normalize_range :
  (forall x : R, exists (r : R) (k : Z),
      normalize_to_0_360 (XFin x) = XFin r /\
      (0 <= r < 360)%R /\ x = (r + 360 * IZR k)%R) /\
  (forall x : float64, is_finite x = true ->
      SFleb (S754_zero false) (normalize_to_0_360 x) = true /\
      SFleb (normalize_to_0_360 x) f360 = true).
Proof.
  split; [exact normalize_exact|].
  intros x Hx. rewrite normalize_py_mod. now apply py_mod_360_range.
Qed.

Lemma normalize_range_witness :
  is_finite minus_2p_60 = true /\
  SFleb (S754_zero false) (normalize_to_0_360 minus_2p_60) = true /\
  SFleb (normalize_to_0_360 minus_2p_60) f360 = true.
Proof.
  split; [reflexivity|].
  destruct normalize_range as [_ B]. apply (B minus_2p_60). reflexivity.
Defined.

(** C5 as stated fails: the angle -2^-60 is normalised to 360.0, outside
    [0, 360). *)
Lemma normalize_reaches_360 :
  normalize_to_0_360 minus_2p_60 = f360 /\
  flt (normalize_to_0_360 minus_2p_60) (fconst 360) = false.
Proof. split; vm_compute; reflexivity. Qed.

End NormalizeFacts.

(** ** The driver *)

Module DriverFacts.

Lemma append_assoc (a b c : string) : (a ++ b) ++ c = a ++ (b ++ c).
Proof. induction a as [|x a IH]; cbn; [reflexivity | now rewrite IH]. Qed.

Lemma py_index_in_bounds {A} (p : list A) (i : Z) :
  in_bounds (List.length p) i = true -> exists a, py_index p i = inr a.
Proof.
  unfold in_bounds, py_index. intros H.
  apply andb_true_iff in H. destruct H as [H1 H2].
  apply Z.leb_le in H1. apply Z.ltb_lt in H2.
  set (n := Z.of_nat (List.length p)) in *.
  set (k := if (i <? 0)%Z then (n + i)%Z else i).
  assert (Hk : (0 <= k < n)%Z).
  { unfold k. destruct (i <? 0)%Z eqn:E; [apply Z.ltb_lt in E | apply Z.ltb_ge in E]; lia. }
  replace ((0 <=? k)%Z && (k <? n)%Z) with true
    by (symmetry; apply andb_true_iff; split; [apply Z.leb_le | apply Z.ltb_lt]; lia).
  destruct (nth_error p (Z.to_nat k)) as [a|] eqn:E; [now exists a|].
  exfalso. apply nth_error_None in E. unfold n in Hk. lia.
Qed.

Lemma py_index_out_of_bounds {A} (p : list A) (i : Z) :
  in_bounds (List.length p) i = false -> py_index p i = inl IndexError.
Proof.
  unfold in_bounds, py_index. intros H.
  set (n := Z.of_nat (List.length p)) in *.
  set (k := if (i <? 0)%Z then (n + i)%Z else i).
  destruct ((0 <=? k)%Z && (k <? n)%Z) eqn:E; [|reflexivity].
  exfalso. apply andb_true_iff in E. destruct E as [E1 E2].
  apply Z.leb_le in E1. apply Z.ltb_lt in E2.
  apply andb_false_iff in H. unfold k in *.
  destruct (i <? 0)%Z eqn:E3; [apply Z.ltb_lt in E3 | apply Z.ltb_ge in E3];
    destruct H as [H|H];
    [apply Z.leb_gt in H | apply Z.ltb_ge in H | apply Z.leb_gt in H | apply Z.ltb_ge in H];
    lia.
Qed.

Section Runs.
Context {F : Type} {AF : Arith F} {LF : Libm F}.
Variable format_float : string -> F -> string.
Variable script : string.
Context {Cell Pbc Calc : Type}.
Variable read : string -> M (Atoms F Cell Pbc Calc).
Variable load_calculator : M Calc.
Variable bfgs_run : Atoms F Cell Pbc Calc -> M (Atoms F Cell Pbc Calc).
Variable get_potential_energy : Atoms F Cell Pbc Calc -> M F.

Lemma dihedral_of_ok (a : Atoms F Cell Pbc Calc) (i j k l : Z) (pi pj pk pl : vec3 F) w :
  py_index (get_positions a) i = inr pi ->
  py_index (get_positions a) j = inr pj ->
  py_index (get_positions a) k = inr pk ->
  py_index (get_positions a) l = inr pl ->
  dihedral_of a (i, j, k, l) w = (inr (calc_dihedral pi pj pk pl), w).
Proof.
  intros Hi Hj Hk Hl. unfold dihedral_of, bind, lift, ret.
  rewrite Hi, Hj, Hk, Hl. reflexivity.
Qed.

Lemma dihedral_of_in_bounds (a : Atoms F Cell Pbc Calc) (q : quad) w :
  all_in_bounds a q = true -> exists cur, dihedral_of a q w = (inr cur, w).
Proof.
  destruct q as [[[i j] k] l]. unfold all_in_bounds; cbn [quad_list forallb].
  rewrite !andb_true_iff. intros (Hi & Hj & Hk & Hl & _).
  destruct (py_index_in_bounds _ _ Hi) as [pi Ei].
  destruct (py_index_in_bounds _ _ Hj) as [pj Ej].
  destruct (py_index_in_bounds _ _ Hk) as [pk Ek].
  destruct (py_index_in_bounds _ _ Hl) as [pl El].
  exists (calc_dihedral pi pj pk pl). now apply dihedral_of_ok.
Qed.

Lemma dihedral_of_out_of_bounds (a : Atoms F Cell Pbc Calc) (q : quad) w :
  all_in_bounds a q = false -> dihedral_of a q w = (inl IndexError, w).
Proof.
  destruct q as [[[i j] k] l]. unfold all_in_bounds; cbn [quad_list forallb].
  intros H. unfold dihedral_of, bind, lift, ret.
  destruct (in_bounds _ i) eqn:Hi; [|now rewrite (py_index_out_of_bounds _ _ Hi)].
  destruct (py_index_in_bounds _ _ Hi) as [pi ->].
  destruct (in_bounds _ j) eqn:Hj; [|now rewrite (py_index_out_of_bounds _ _ Hj)].
  destruct (py_index_in_bounds _ _ Hj) as [pj ->].
  destruct (in_bounds _ k) eqn:Hk; [|now rewrite (py_index_out_of_bounds _ _ Hk)].
  destruct (py_index_in_bounds _ _ Hk) as [pk ->].
  destruct (in_bounds _ l) eqn:Hl; [|now rewrite (py_index_out_of_bounds _ _ Hl)].
  cbn in H. discriminate.
Qed.

Lemma setup_user_specified inp out c s idx t (atoms : Atoms F Cell Pbc Calc) w :
  setup_constraint format_float (mkArgs inp out c s (Some idx) (Some t)) atoms w =
  (inr (set_constraint atoms [mkFixInternals [(t, zero_based idx)]]),
   log w [constraining_line idx;
          "Using user-specified target dihedral angle: " ++ format_float ".2f" t ++ "°"]).
Proof.
  unfold setup_constraint, bind, print, ret, log, constraining_line; cbn.
  rewrite <- app_assoc. reflexivity.
Qed.

Lemma setup_fixed_current inp out c s idx (atoms : Atoms F Cell Pbc Calc) w cur :
  dihedral_of atoms (zero_based idx) (log w [constraining_line idx]) 
    = (inr cur, log w [constraining_line idx]) ->
  setup_constraint format_float (mkArgs inp out c s (Some idx) None) atoms w =
  (inr (set_constraint atoms [mkFixInternals [(cur, zero_based idx)]]),
   log w [constraining_line idx;
          "--dihedral_angle not specified. Using current dihedral angle: "
            ++ format_float ".2f" cur ++ "°"]).
Proof.
  intros H. unfold setup_constraint, bind, print, ret; cbn.
  unfold log, constraining_line in H. cbn in H. rewrite H.
  unfold log, constraining_line; cbn. rewrite <- app_assoc. reflexivity.
Qed.

Lemma setup_index_error inp out c s idx (atoms : Atoms F Cell Pbc Calc) w :
  all_in_bounds atoms (zero_based idx) = false ->
  setup_constraint format_float (mkArgs inp out c s (Some idx) None) atoms w =
  (inl IndexError, log w [constraining_line idx]).
Proof.
  intros H. unfold setup_constraint, bind, print, ret; cbn.
  rewrite (dihedral_of_out_of_bounds _ _ _ H). reflexivity.
Qed.

(** A run whose reader, constraint set-up and calculator succeed hands
    the atoms to the optimiser. *)
Lemma main_reaches_optimizer args w atoms0 w1 atoms1 w2 c w3 :
  read (input_file args)
       (log w (banner script))
    = (inr atoms0, w1) ->
  setup_constraint format_float args (set_info atoms0 (charge args) (spin args)) w1
    = (inr atoms1, w2) ->
  load_calculator w2 = (inr c, w3) ->
  main format_float script read load_calculator bfgs_run get_potential_energy args w
  = bind (bfgs_run (set_calc atoms1 c))
         (report format_float get_potential_energy args)
         (log w3 ["Starting geometry optimization..."]).
Proof.
  intros Hr Hs Hc. unfold main.
  unfold bind at 1. unfold print at 1. cbn iota beta.
  unfold bind at 1. unfold print at 1. cbn iota beta.
  cbn [stdout files].
  unfold log, banner in Hr. cbn [stdout files] in Hr.
  rewrite <- app_assoc. cbn [app].
  unfold bind at 1. rewrite Hr. 
  unfold bind at 1. rewrite Hs.
  unfold bind at 1. rewrite Hc.
  unfold bind at 1. unfold print at 1. reflexivity.
Qed.


(** A run whose constraint set-up raises ends there: the optimiser is not
    consulted. *)
Lemma main_aborts_in_setup args w atoms0 w1 e w2 :
  read (input_file args) (log w (banner script)) = (inr atoms0, w1) ->
  setup_constraint format_float args (set_info atoms0 (charge args) (spin args)) w1
    = (inl e, w2) ->
  main format_float script read load_calculator bfgs_run get_potential_energy args w
  = (inl e, w2).
Proof.
  intros Hr Hs. unfold main.
  unfold bind at 1. unfold print at 1. cbn iota beta.
  unfold bind at 1. unfold print at 1. cbn iota beta.
  cbn [stdout files].
  unfold log, banner in Hr. cbn [stdout files] in Hr.
  rewrite <- app_assoc. cbn [app].
  unfold bind at 1. rewrite Hr.
  unfold bind at 1. rewrite Hs. reflexivity.
Qed.


Lemma report_constrained inp out c s idx ang (atoms : Atoms F Cell Pbc Calc) w E w1 a :
  get_potential_energy atoms w = (inr E, w1) ->
  dihedral_of atoms (zero_based idx) w1 = (inr a, w1) ->
  report format_float get_potential_energy (mkArgs inp out c s (Some idx) ang) atoms w =
  (let A := normalize_to_0_360 a in
   let cmt := "dihedral=" ++ String.concat "-" (map str_int (quad_list idx))
              ++ " actual_angle=" ++ format_float ".2f" A
              ++ " energy=" ++ format_float ".6f" E
              ++ " eV charge=" ++ format_float "" c ++ " spin=" ++ format_float "" s
              ++ " constraint_source="
              ++ match ang with None => "fixed_current" | Some _ => "user_specified" end in
   (inr tt,
    mkWorld (stdout w1 ++ ["Actual dihedral angle: " ++ format_float ".2f" A ++ "°";
                           "Optimization finished.";
                           "Final energy: " ++ format_float ".6f" E ++ " eV";
                           "Optimized structure saved to " ++ out ++ " with comment: " ++ cmt])
            ((out, xyz_text format_float (sites atoms) cmt) :: files w1))).
Proof.
  intros H D. unfold report, bind. rewrite H.
  unfold actual_angle. cbn [dihedral_indices]. unfold bind. rewrite D.
  unfold ret, print, write_file. cbn [stdout files].
  rewrite <- !app_assoc. reflexivity.
Qed.


(** C2 (amended).  The script validates nothing when it builds the
    constraint.  With an explicit target angle any four indices are
    accepted as they are (repeated, zero, negative, beyond the last atom)
    and the constraint on the 0-based indices is attached.  Without an
    explicit angle the only failure is numpy's [IndexError], raised by
    [p[i]] when some 0-based index lies outside [-n, n-1], and the run
    then ends before the optimiser is called; otherwise a constraint is
    attached as well. *)
Theorem indices_not_validated inp out c s idx (atoms : Atoms F Cell Pbc Calc) w :
  (forall t,
      setup_constraint format_float (mkArgs inp out c s (Some idx) (Some t)) atoms w
      = (inr (set_constraint atoms [mkFixInternals [(t, zero_based idx)]]),
         log w [constraining_line idx;
                "Using user-specified target dihedral angle: "
                  ++ format_float ".2f" t ++ "°"])) /\
  (all_in_bounds atoms (zero_based idx) = true ->
   exists cur,
     fst (setup_constraint format_float (mkArgs inp out c s (Some idx) None) atoms w)
     = inr (set_constraint atoms [mkFixInternals [(cur, zero_based idx)]])) /\
  (all_in_bounds atoms (zero_based idx) = false ->
   setup_constraint format_float (mkArgs inp out c s (Some idx) None) atoms w
   = (inl IndexError, log w [constraining_line idx])) /\
  (forall w0,
      read inp (log w0 (banner script)) = (inr atoms, w) ->
      all_in_bounds atoms (zero_based idx) = false ->
      main format_float script read load_calculator bfgs_run get_potential_energy
           (mkArgs inp out c s (Some idx) None) w0
      = (inl IndexError, log w [constraining_line idx])).
Proof.
  split; [intros t; apply setup_user_specified|].
  split; [|split].
  - intros H.
    destruct (dihedral_of_in_bounds atoms (zero_based idx)
                (log w [constraining_line idx]) H) as [cur E].
    exists cur. now rewrite (setup_fixed_current _ _ _ _ _ _ _ _ E).
  - intros H. now apply setup_index_error.
  - intros w0 Hr H.
    apply (main_aborts_in_setup (mkArgs inp out c s (Some idx) None) w0 atoms w);
      [exact Hr|].
    cbn [charge spin]. now apply setup_index_error.
Qed.

(** C10.  Without [--dihedral_indices] a given [--dihedral_angle] changes
    nothing: the whole run, everything it prints and writes included, is
    the run without the angle, and no constraint is attached. *)
Theorem angle_without_indices_ignored inp out c s t :
  main format_float script read load_calculator bfgs_run get_potential_energy
       (mkArgs inp out c s None (Some t))
  = main format_float script read load_calculator bfgs_run get_potential_energy
         (mkArgs inp out c s None None) /\
  (forall ang (atoms : Atoms F Cell Pbc Calc) w,
      setup_constraint format_float (mkArgs inp out c s None ang) atoms w
      = (inr (set_constraint atoms []),
         log w ["No dihedral constraint applied. Performing unconstrained optimization."])).
Proof. split; reflexivity. Qed.

End Runs.

(** *** Runs on the sample inputs *)

Import Exact RealGeometry Samples.

Lemma indices_not_validated_witness :
  all_in_bounds bent (zero_based (1, 1, 5, 0)%Z) = false /\
  setup_constraint show
    (mkArgs "in.xyz" "out.xyz" (XFin 0) (XFin 1) (Some (1, 1, 5, 0)%Z) None)
    bent empty_world
  = (inl IndexError, log empty_world [constraining_line (1, 1, 5, 0)%Z]).
Proof.
  split; [reflexivity|].
  apply (indices_not_validated show "opt.py" read_bent calc_unit bfgs_id energy_zero
           "in.xyz" "out.xyz" (XFin 0) (XFin 1) (1, 1, 5, 0)%Z bent empty_world).
  reflexivity.
Defined.

(** C2 as stated fails: the indices 1 1 5 0 on a structure of four atoms
    repeat an atom and leave the structure, yet with an explicit angle no
    error is raised: the constraint is attached and the optimiser is
    started on it. *)
Lemma bad_indices_reach_optimizer :
  setup_constraint show bad_args bent empty_world
  = (inr (set_constraint bent [mkFixInternals [(XFin 90, (0, 0, 4, -1)%Z)]]),
     log empty_world
       [constraining_line (1, 1, 5, 0)%Z;
        "Using user-specified target dihedral angle: <.2f>°"]) /\
  main show "opt.py" read_bent calc_unit bfgs_id energy_zero bad_args empty_world
  = bind (bfgs_id
            (set_calc
               (set_constraint (set_info bent (XFin 0) (XFin 1))
                  [mkFixInternals [(XFin 90, (0, 0, 4, -1)%Z)]])
               tt))
         (report show energy_zero bad_args)
         (log empty_world
            (banner "opt.py"
             ++ [constraining_line (1, 1, 5, 0)%Z;
                 "Using user-specified target dihedral angle: <.2f>°";
                 "Starting geometry optimization..."])).
Proof. split; reflexivity. Qed.

End DriverFacts.

(** ** More about calc_dihedral over exact arithmetic *)

Module GeometryExtras.
Import Exact RealGeometry Motions Samples GeometryFacts NormalizeFacts.
Local Open Scope R_scope.




(** *** NaN in, NaN out *)

Lemma xsub_nan_r x : xsub x XNaN = XNaN.
Proof. destruct x; reflexivity. Qed.

Lemma xmul_nan_r x : xmul x XNaN = XNaN.
Proof. destruct x; reflexivity. Qed.

Lemma xadd_nan_r x : xadd x XNaN = XNaN.
Proof. destruct x; reflexivity. Qed.

Lemma xdiv_nan_r x : xdiv x XNaN = XNaN.
Proof. destruct x; reflexivity. Qed.

Lemma has_nan_vsub_l a b : has_nan a -> has_nan (vsub a b).
Proof.
  destruct a as [x y z], b as [x' y' z']. unfold has_nan, vsub; cbn.
  intros [-> | [-> | ->]]; auto.
Qed.

Lemma has_nan_vsub_r a b : has_nan b -> has_nan (vsub a b).
Proof.
  destruct a as [x y z], b as [x' y' z']. unfold has_nan, vsub; cbn.
  intros [-> | [-> | ->]]; rewrite xsub_nan_r; auto.
Qed.

Lemma has_nan_cross_l a b : has_nan a -> has_nan (cross a b).
Proof.
  destruct a as [x y z], b as [x' y' z']. unfold has_nan, cross; cbn.
  intros [-> | [-> | ->]].
  - right; left. change (xmul XNaN z') with XNaN. apply xsub_nan_r.
  - left. reflexivity.
  - left. change (xmul XNaN y') with XNaN. apply xsub_nan_r.
Qed.

Lemma has_nan_cross_r a b : has_nan b -> has_nan (cross a b).
Proof.
  destruct a as [x y z], b as [x' y' z']. unfold has_nan, cross; cbn.
  intros [-> | [-> | ->]].
  - right; left. now rewrite xmul_nan_r.
  - right; right. now rewrite xmul_nan_r.
  - left. now rewrite xmul_nan_r.
Qed.

Lemma norm_has_nan v : has_nan v -> norm v = XNaN.
Proof.
  destruct v as [x y z]. unfold has_nan, norm, dot; cbn.
  intros [-> | [-> | ->]]; cbn.
  - reflexivity.
  - rewrite xadd_nan_r. reflexivity.
  - rewrite xadd_nan_r. reflexivity.
Qed.

Lemma vdiv_nan v : vdiv v XNaN = vnan.
Proof. destruct v as [x y z]. unfold vdiv, vnan; cbn. now rewrite !xdiv_nan_r. Qed.

Lemma normalized_has_nan v : has_nan v -> vdiv v (norm v) = vnan.
Proof. intros H. rewrite (norm_has_nan v H). apply vdiv_nan. Qed.

(** X6. A NaN in any coordinate of any of the four points makes
    [calc_dihedral] return NaN: nothing on the way (subtraction, cross
    product, norm, clip, arccos, sign) masks it. *)
Theorem nan_coordinate_gives_nan (p1 p2 p3 p4 : vec3 xreal) :
  has_nan p1 \/ has_nan p2 \/ has_nan p3 \/ has_nan p4 ->
  calc_dihedral p1 p2 p3 p4 = XNaN.
Proof.
  intros H. unfold calc_dihedral. cbv zeta. apply nan_propagates.
  destruct H as [H|[H|[H|H]]].
  - left. apply normalized_has_nan, has_nan_cross_l, has_nan_vsub_r, H.
  - left. apply normalized_has_nan, has_nan_cross_l, has_nan_vsub_l, H.
  - left. apply normalized_has_nan, has_nan_cross_r, has_nan_vsub_l, H.
  - right. apply normalized_has_nan, has_nan_cross_r, has_nan_vsub_l, H.
Qed.

Lemma nan_coordinate_gives_nan_witness :
  calc_dihedral (V3 (XFin 0) XNaN (XFin 0)) (embed Q2) (embed Q3) (embed Q4) = XNaN.
Proof.
  apply nan_coordinate_gives_nan. left. right; left. reflexivity.
Defined.

(** *** The clip before the arc cosine *)

(** X7. The clip of line 59 keeps [np.arccos] inside its domain: for
    every input that is not NaN, infinities included, the arc cosine of
    the clipped value is a finite angle in [0, pi]. *)
Theorem arccos_of_clip (x : xreal) :
  x <> XNaN ->
  exists r : R,
    arccos (clip x (fconst (-1)) (fconst 1)) = XFin r /\ 0 <= r <= PI.
Proof.
  intros Hx. destruct x as [c|[|]|]; [| | |contradiction].
  - exists (acos (clamp c)). split; [|apply acos_bound].
    rewrite clip_fin. apply arccos_fin, clamp_bounds.
  - exists PI. split; [|pose proof PI_RGT_0; lra].
    unfold clip, np_max, np_min, fisnan, fgt; cbn.
    repeat (match goal with
            | |- context [Rltb ?a ?b] =>
                first [rewrite (Rltb_true a b) by lra | rewrite (Rltb_false a b) by lra]
            | |- context [Reqb ?a ?b] =>
                first [rewrite (Reqb_true a b) by lra | rewrite (Reqb_false a b) by lra]
            end; cbn).
    f_equal. apply acos_m1.
  - exists 0. split; [|pose proof PI_RGT_0; lra].
    unfold clip, np_max, np_min, fisnan, fgt; cbn.
    repeat (match goal with
            | |- context [Rltb ?a ?b] =>
                first [rewrite (Rltb_true a b) by lra | rewrite (Rltb_false a b) by lra]
            | |- context [Reqb ?a ?b] =>
                first [rewrite (Reqb_true a b) by lra | rewrite (Reqb_false a b) by lra]
            end; cbn).
    f_equal. apply acos_1.
Qed.

Lemma arccos_of_clip_witness :
  exists r : R, arccos (clip (XInf false) (fconst (-1)) (fconst 1)) = XFin r /\ 0 <= r <= PI.
Proof. apply arccos_of_clip. discriminate. Defined.

(** *** The period of the normalisation *)

Lemma multiple_in_window (a b : R) (k : Z) :
  0 <= a < 360 -> 0 <= b < 360 -> a = b + 360 * IZR k -> a = b.
Proof.
  intros Ha Hb E.
  assert (H1 : IZR (-1) < IZR k) by (change (IZR (-1)) with (-1); lra).
  assert (H2 : IZR k < IZR 1) by (change (IZR 1) with 1; lra).
  apply lt_IZR in H1, H2. assert (k = 0%Z) by lia. subst k. cbn in E. lra.
Qed.

Lemma normalize_unique (x r : R) (k : Z) :
  0 <= r < 360 -> x = r + 360 * IZR k -> normalize_to_0_360 (XFin x) = XFin r.
Proof.
  intros Hr E. destruct (normalize_exact x) as (r' & k' & E' & B' & C').
  rewrite E'. f_equal.
  apply (multiple_in_window r' r (k - k')%Z); [assumption | assumption |].
  rewrite minus_IZR. lra.
Qed.

(** X8. Over the reals the normalisation of lines 139-141 has period
    360: angles that differ by a whole number of turns are reported as
    the same value. *)
Theorem normalize_periodic (x : R) (k : Z) :
  normalize_to_0_360 (XFin (x + 360 * IZR k)) = normalize_to_0_360 (XFin x).
Proof.
  destruct (normalize_exact x) as (r & k' & E & B & C).
  rewrite E. apply (normalize_unique _ r (k' + k)%Z); [assumption|].
  rewrite plus_IZR. lra.
Qed.

End GeometryExtras.

(** ** calc_dihedral on binary64 *)

Module Binary64Extras.
Import Binary64 Binary64Libm NormalizeFacts.
Local Open Scope Z_scope.

(** *** Repeated points in binary64 *)

Lemma sub_self (x : float64) : zero_or_nan (fsub x x) = true.
Proof.
  destruct x as [[|]|[|]| |s m e]; try reflexivity.
  cbn [fsub float64_arith]. unfold SFsub.
  destruct (shl_align_spec m e (Z.min e e)) as [_ E]. rewrite Z.sub_diag. reflexivity.
Qed.

Lemma mul_zero_l (x y : float64) :
  zero_or_nan x = true -> zero_or_nan (fmul x y) = true.
Proof. destruct x as [[|]|[|]| |sx mx ex], y as [[|]|[|]| |sy my ey]; try discriminate; reflexivity. Qed.

Lemma mul_zero_r (x y : float64) :
  zero_or_nan y = true -> zero_or_nan (fmul x y) = true.
Proof. destruct x as [[|]|[|]| |sx mx ex], y as [[|]|[|]| |sy my ey]; try discriminate; reflexivity. Qed.

Lemma sub_zeros (x y : float64) :
  zero_or_nan x = true -> zero_or_nan y = true -> zero_or_nan (fsub x y) = true.
Proof. destruct x as [[|]|[|]| |sx mx ex], y as [[|]|[|]| |sy my ey]; try discriminate; reflexivity. Qed.

Lemma add_zeros (x y : float64) :
  zero_or_nan x = true -> zero_or_nan y = true -> zero_or_nan (fadd x y) = true.
Proof. destruct x as [[|]|[|]| |sx mx ex], y as [[|]|[|]| |sy my ey]; try discriminate; reflexivity. Qed.

Lemma sqrt_zero (x : float64) : zero_or_nan x = true -> zero_or_nan (fsqrt x) = true.
Proof. destruct x as [[|]|[|]| |sx mx ex]; try discriminate; reflexivity. Qed.

Lemma div_zeros (x y : float64) :
  zero_or_nan x = true -> zero_or_nan y = true -> fdiv x y = S754_nan.
Proof. destruct x as [[|]|[|]| |sx mx ex], y as [[|]|[|]| |sy my ey]; try discriminate; reflexivity. Qed.

Lemma vsub_self (p : vec3 float64) : zero_vector (vsub p p).
Proof. destruct p; repeat split; apply sub_self. Qed.

Lemma cross_zero_l (a b : vec3 float64) : zero_vector a -> zero_vector (cross a b).
Proof.
  intros (X & Y & Z). destruct a, b; cbn in *.
  repeat split; cbn; apply sub_zeros; apply mul_zero_l; assumption.
Qed.

Lemma cross_zero_r (a b : vec3 float64) : zero_vector b -> zero_vector (cross a b).
Proof.
  intros (X & Y & Z). destruct a, b; cbn in *.
  repeat split; cbn; apply sub_zeros; apply mul_zero_r; assumption.
Qed.

Lemma normalized_zero (v : vec3 float64) : zero_vector v -> vdiv v (norm v) = vnan64.
Proof.
  intros (X & Y & Z).
  assert (N : zero_or_nan (norm v) = true).
  { unfold norm, dot. apply sqrt_zero. repeat apply add_zeros; apply mul_zero_l; assumption. }
  destruct v as [x y z]; cbn [vx vy vz] in *. unfold vdiv, vnan64. cbn [vx vy vz].
  now rewrite !div_zeros.
Qed.

Lemma fmul_nan_r (x : float64) : fmul x S754_nan = S754_nan.
Proof. destruct x as [[|]|[|]| |s m e]; reflexivity. Qed.

Lemma fadd_nan_r (x : float64) : fadd x S754_nan = S754_nan.
Proof. destruct x as [[|]|[|]| |s m e]; reflexivity. Qed.

Lemma fsub_nan_r (x : float64) : fsub x S754_nan = S754_nan.
Proof. destruct x as [[|]|[|]| |s m e]; reflexivity. Qed.

Lemma dot_vnan_l (v : vec3 float64) : dot vnan64 v = S754_nan.
Proof. reflexivity. Qed.

Lemma dot_vnan_r (v : vec3 float64) : dot v vnan64 = S754_nan.
Proof.
  destruct v as [x y z]. unfold dot, vnan64; cbn [vx vy vz].
  rewrite !fmul_nan_r. now rewrite fadd_nan_r.
Qed.

Lemma cross_vnan_l (v : vec3 float64) : cross vnan64 v = vnan64.
Proof. reflexivity. Qed.

Lemma cross_vnan_r (v : vec3 float64) : cross v vnan64 = vnan64.
Proof.
  destruct v as [x y z]. unfold cross, vnan64; cbn [vx vy vz].
  rewrite !fmul_nan_r. now rewrite !fsub_nan_r.
Qed.

Section AnyAcos.
Variable acos : float64 -> float64.

Lemma nan_propagates64 (b n1 n2 : vec3 float64) :
  n1 = vnan64 \/ n2 = vnan64 ->
  (let phi := arccos (Libm := float64_libm acos)
                (clip (dot n1 n2) (fconst (-1)) (fconst 1)) in
   let sign := np_sign (dot b (cross n1 n2)) in
   degrees (LF := float64_libm acos)
     (if fne sign (fconst 0) then fmul phi sign else phi)) = S754_nan.
Proof.
  intros [-> | ->]; cbv zeta.
  - rewrite cross_vnan_l, dot_vnan_l, dot_vnan_r. reflexivity.
  - rewrite cross_vnan_r, !dot_vnan_r. reflexivity.
Qed.

(** X10. In binary64, whatever the C library's [acos] returns: when two
    consecutive arguments of [calc_dihedral] are the same point (the same
    atom index given twice in a row), the bond vector between them is zero
    or NaN, a plane normal is divided by a zero or NaN norm, and the
    result is NaN.  No exception is raised. *)
Theorem repeated_point_gives_nan (p a b : vec3 float64) :
  calc_dihedral (LF := float64_libm acos) p p a b = S754_nan /\
  calc_dihedral (LF := float64_libm acos) a p p b = S754_nan /\
  calc_dihedral (LF := float64_libm acos) a b p p = S754_nan.
Proof.
  repeat split; unfold calc_dihedral; cbv zeta; apply nan_propagates64.
  - left. apply normalized_zero, cross_zero_l, vsub_self.
  - left. apply normalized_zero, cross_zero_r, vsub_self.
  - right. apply normalized_zero, cross_zero_r, vsub_self.
Qed.

End AnyAcos.
End Binary64Extras.

(** ** More about the normalisation on binary64 *)

Module NormalizeExtras.
Import Binary64 NormalizeFacts.
Local Open Scope Z_scope.

Lemma ltb_360_finite (p : positive) (e : Z) :
  e <= -44 -> Zpos p < M360 * 2 ^ (-44 - e) ->
  SFltb (S754_finite false p e) f360 = true.
Proof.
  intros He Hb. unfold SFltb, SFcompare, f360.
  destruct (Z.compare_spec e (-44)) as [E|L|G]; [|reflexivity|lia].
  subst e. replace (-44 - -44) with 0 in Hb by lia.
  rewrite Z.pow_0_r, Z.mul_1_r in Hb.
  rewrite Pos.compare_cont_spec.
  destruct (Pos.compare_spec p 6333186975989760) as [E|L|G].
  - subst p. unfold M360 in Hb. lia.
  - reflexivity.
  - unfold M360 in Hb. lia.
Qed.

Lemma ltb_360_inv (m : positive) (e : Z) :
  SFltb (S754_finite false m e) f360 = true ->
  e < -44 \/ (e = -44 /\ Zpos m < M360).
Proof.
  unfold SFltb, SFcompare, f360.
  destruct (Z.compare_spec e (-44)) as [E|L|G].
  - rewrite Pos.compare_cont_spec.
    destruct (Pos.compare_spec m 6333186975989760) as [E'|L|G]; cbn [Pos.switch_Eq].
    + intros H. exfalso. exact (diff_false_true H).
    + intros _. right. split; [assumption|]. unfold M360.
      apply Pos2Z.pos_lt_pos. exact L.
    + intros H. exfalso. exact (diff_false_true H).
  - intros _. left. lia.
  - intros H. exfalso. exact (diff_false_true H).
Qed.

(** X11. In binary64 the value 360.0 is reached from negative inputs
    only: for every finite input whose sign bit is clear the normalised
    angle lies in the half-open interval [0, 360). *)
Theorem nonnegative_below_360 (x : float64) :
  is_finite x = true -> signbit x = false ->
  SFleb (S754_zero false) (normalize_to_0_360 x) = true /\
  SFltb (normalize_to_0_360 x) f360 = true.
Proof.
  intros Hf Hs. rewrite normalize_py_mod.
  unfold py_mod. rewrite fconst_360, fconst_0.
  change (ffmod x f360) with (fmod x f360).
  change (feq f360 (S754_zero false)) with false. cbv iota.
  destruct x as [s|s| |s m e]; try discriminate; cbn in Hs; subst s.
  - split; reflexivity.
  - destruct (fmod_360_finite false m e) as [E | (m' & e' & E & He & Hb)]; rewrite E.
    + split; reflexivity.
    + change (fne (S754_finite false m' e') (S754_zero false)) with true.
      change (flt f360 (S754_zero false)) with false.
      change (flt (S754_finite false m' e') (S754_zero false)) with false.
      cbn [xorb]. cbv iota.
      split; [reflexivity|]. now apply ltb_360_finite.
Qed.

Lemma nonnegative_below_360_witness :
  SFleb (S754_zero false) (normalize_to_0_360 f_725_5) = true /\
  SFltb (normalize_to_0_360 f_725_5) f360 = true.
Proof. apply (nonnegative_below_360 f_725_5); reflexivity. Defined.

(** X12. In binary64 the normalisation changes nothing on an angle that
    is already strictly between 0 and 360: the float modulo is exact
    there, so the value is returned bit for bit. *)
Theorem normalized_angle_unchanged (x : float64) :
  valid_binary prec emax x = true ->
  SFltb (S754_zero false) x = true -> SFltb x f360 = true ->
  normalize_to_0_360 x = x.
Proof.
  intros Hv H0 H360. rewrite normalize_py_mod.
  destruct x as [s|s| |s m e];
    [destruct s; exfalso; exact (diff_false_true H0)
    | destruct s; exfalso; exact (diff_false_true H0) + exact (diff_false_true H360)
    | exfalso; exact (diff_false_true H0) |].
  destruct s; [exfalso; exact (diff_false_true H0)|].
  cbn [valid_binary] in Hv. unfold bounded in Hv.
  apply andb_true_iff in Hv. destruct Hv as [Hc _].
  pose proof (canonical_digits m e Hc) as [Hd _].
  pose proof (digits2_bounds m) as [_ Um].
  assert (Mm : Zpos m < 2 ^ 53).
  { apply Z.lt_le_trans with (1 := Um). apply Z.pow_le_mono_r; lia. }
  apply ltb_360_inv in H360.
  assert (He : e <= -44) by lia.
  assert (Hb : Zpos m < M360 * 2 ^ (-44 - e)).
  { destruct H360 as [L | [E L]].
    - assert (2 ^ 1 <= 2 ^ (-44 - e)) by (apply Z.pow_le_mono_r; lia).
      change (2 ^ 1) with 2 in H. change (2 ^ 53) with 9007199254740992 in Mm.
      unfold M360. nia.
    - subst e. change (2 ^ (-44 - -44)) with 1. lia. }
  assert (F : fmod (S754_finite false m e) f360 = S754_finite false m e).
  { unfold fmod, f360. fold M360.
    replace (Z.min e (-44)) with e by lia.
    rewrite Z.sub_diag, Z.pow_0_r, Z.mul_1_r.
    change (Z.pos 6333186975989760) with M360.
    rewrite Z.mod_small by lia.
    unfold exact_float, shl_align.
    unfold canonical_mantissa in Hc. apply Z.eqb_eq in Hc. rewrite Hc.
    rewrite Z.sub_diag. reflexivity. }
  unfold py_mod. rewrite fconst_360, fconst_0.
  change (ffmod (S754_finite false m e) f360) with (fmod (S754_finite false m e) f360).
  rewrite F. reflexivity.
Qed.

Lemma normalized_angle_unchanged_witness : normalize_to_0_360 f_270 = f_270.
Proof. apply (normalized_angle_unchanged f_270); reflexivity. Defined.

End NormalizeExtras.

(** ** More about the driver *)

Module DriverExtras.
Import DriverFacts.

Section Runs.
Context {F : Type} {AF : Arith F} {LF : Libm F}.
Variable format_float : string -> F -> string.
Variable script : string.
Context {Cell Pbc Calc : Type}.
Variable read : string -> M (Atoms F Cell Pbc Calc).
Variable load_calculator : M Calc.
Variable bfgs_run : Atoms F Cell Pbc Calc -> M (Atoms F Cell Pbc Calc).
Variable get_potential_energy : Atoms F Cell Pbc Calc -> M F.

(** [dihedral_of] either returns in the same world or raises [IndexError]. *)
Lemma dihedral_of_cases (a : Atoms F Cell Pbc Calc) (q : quad) (w : World) :
  (all_in_bounds a q = true /\ exists cur, dihedral_of a q w = (inr cur, w)) \/
  (all_in_bounds a q = false /\ dihedral_of a q w = (inl IndexError, w)).
Proof.
  destruct (all_in_bounds a q) eqn:E.
  - left. split; [reflexivity|]. now apply dihedral_of_in_bounds.
  - right. split; [reflexivity|]. now apply dihedral_of_out_of_bounds.
Qed.

Lemma setup_success_shape args (atoms atoms' : Atoms F Cell Pbc Calc) w w' :
  setup_constraint format_float args atoms w = (inr atoms', w') ->
  sites atoms' = sites atoms /\ cell atoms' = cell atoms /\ pbc atoms' = pbc atoms /\
  info_charge atoms' = info_charge atoms /\ info_spin atoms' = info_spin atoms /\
  calc atoms' = calc atoms /\ files w' = files w /\
  match dihedral_indices args with
  | None => constraints atoms' = []
  | Some idx => exists t, constraints atoms' = [mkFixInternals [(t, zero_based idx)]]
  end.
Proof.
  destruct args as [inp out c s [idx|] ang]; cbn [dihedral_indices].
  - destruct ang as [t|].
    + rewrite setup_user_specified. intros H. injection H as <- <-.
      repeat split. now exists t.
    + destruct (dihedral_of_cases atoms (zero_based idx) (log w [constraining_line idx]))
        as [[_ [cur E]] | [B _]].
      * rewrite (setup_fixed_current _ _ _ _ _ _ _ _ _ E). intros H. injection H as <- <-.
        repeat split. now exists cur.
      * rewrite (setup_index_error _ _ _ _ _ _ _ _ B). discriminate.
  - intros H. cbv in H. injection H as <- <-. repeat split.
Qed.

(** X13. When the constraint set-up of lines 93-114 succeeds it has
    changed nothing but the constraint list: positions, symbols, cell,
    periodicity, charge, spin and calculator are as before, no file was
    written, and the list is empty without [--dihedral_indices] and
    otherwise holds exactly one [FixInternals] on the 0-based indices. *)
Theorem setup_touches_only_constraints args (atoms atoms' : Atoms F Cell Pbc Calc) w w' :
  setup_constraint format_float args atoms w = (inr atoms', w') ->
  sites atoms' = sites atoms /\ cell atoms' = cell atoms /\ pbc atoms' = pbc atoms /\
  info_charge atoms' = info_charge atoms /\ info_spin atoms' = info_spin atoms /\
  calc atoms' = calc atoms /\ files w' = files w /\
  match dihedral_indices args with
  | None => constraints atoms' = []
  | Some idx => exists t, constraints atoms' = [mkFixInternals [(t, zero_based idx)]]
  end.
Proof. apply setup_success_shape. Qed.

(** X14. The constraint set-up can fail in one way only: with
    [IndexError], in a run with [--dihedral_indices] and without
    [--dihedral_angle], when a 0-based index is outside [-n, n-1]; by then
    only the "Constraining dihedral" line has been printed. *)
Theorem setup_fails_only_on_index args (atoms : Atoms F Cell Pbc Calc) w e w' :
  setup_constraint format_float args atoms w = (inl e, w') ->
  e = IndexError /\ dihedral_angle args = None /\
  exists idx, dihedral_indices args = Some idx /\
              all_in_bounds atoms (zero_based idx) = false /\
              w' = log w [constraining_line idx].
Proof.
  destruct args as [inp out c s [idx|] ang]; cbn [dihedral_indices dihedral_angle].
  - destruct ang as [t|].
    + rewrite setup_user_specified. discriminate.
    + destruct (dihedral_of_cases atoms (zero_based idx) (log w [constraining_line idx]))
        as [[_ [cur E]] | [B _]].
      * rewrite (setup_fixed_current _ _ _ _ _ _ _ _ _ E). discriminate.
      * rewrite (setup_index_error _ _ _ _ _ _ _ _ B). intros H. injection H as <- <-.
        repeat split. exists idx. repeat split. exact B.
  - intros H. cbv in H. discriminate.
Qed.


(** The achieved angle either is computed in the same files, or the
    indexing raises. *)
Lemma actual_angle_cases args (atoms : Atoms F Cell Pbc Calc) w :
  (exists a w', actual_angle format_float args atoms w = (inr a, w') /\ files w' = files w) \/
  actual_angle format_float args atoms w = (inl IndexError, w).
Proof.
  unfold actual_angle. destruct (dihedral_indices args) as [idx|].
  - destruct (dihedral_of_cases atoms (zero_based idx) w) as [[_ [cur E]] | [_ E]];
      unfold bind; rewrite E.
    + left. eexists. eexists. split; reflexivity.
    + right. reflexivity.
  - left. exists None, w. split; reflexivity.
Qed.

(** X15. The output file is written only after the energy was obtained
    and the achieved angle computed: when the final part of the script
    succeeds it has added exactly one file, [args.output_file], holding the
    XYZ text of the optimised atoms; when it fails (the energy query
    raises, or indexing the positions raises [IndexError]) it has written
    no file. *)
Theorem report_writes_last args (atoms : Atoms F Cell Pbc Calc) w r w' :
  report format_float get_potential_energy args atoms w = (r, w') ->
  match r with
  | inr _ =>
      exists E w1 cmt,
        get_potential_energy atoms w = (inr E, w1) /\
        files w' = (output_file args, xyz_text format_float (sites atoms) cmt) :: files w1
  | inl e =>
      exists w1,
        files w' = files w1 /\
        (get_potential_energy atoms w = (inl e, w1) \/
         (e = IndexError /\ exists E, get_potential_energy atoms w = (inr E, w1)))
  end.
Proof.
  unfold report. unfold bind at 1.
  destruct (get_potential_energy atoms w) as [[e|E] w1] eqn:G.
  - intros H. injection H as <- <-. exists w1. split; [reflexivity|]. now left.
  - unfold bind at 1.
    destruct (actual_angle_cases args atoms w1) as [(a & w2 & A & Fw) | A]; rewrite A.
    + intros H. cbv [bind print write_file] in H. cbn [stdout files] in H.
      injection H as <- <-. cbn [files].
      exists E, w1. eexists. split; [reflexivity|]. rewrite Fw. reflexivity.
    + intros H. injection H as <- <-. exists w1. split; [reflexivity|].
      right. split; [reflexivity|]. now exists E.
Qed.

(** *** Negative positions *)

Lemma py_index_wrap {A : Type} (p : list A) (i : Z) :
  in_bounds (List.length p) i = true ->
  py_index p (wrap_index (List.length p) i) = py_index p i.
Proof.
  unfold in_bounds, wrap_index, py_index. intros H.
  apply andb_true_iff in H. destruct H as [H1 H2].
  apply Z.leb_le in H1. apply Z.ltb_lt in H2.
  destruct (i <? 0)%Z eqn:E; [|now rewrite E].
  apply Z.ltb_lt in E.
  replace (i + Z.of_nat (List.length p) <? 0)%Z with false
    by (symmetry; apply Z.ltb_ge; lia).
  now rewrite Z.add_comm.
Qed.

(** X16. Indexing follows numpy: a 0-based index i in [-n, -1] reads
    the same position as i + n, so [calc_dihedral] on four accepted
    indices equals [calc_dihedral] on their non-negative equivalents (the
    1-based index 0 addresses the last atom). *)
Theorem negative_index_wraps (atoms : Atoms F Cell Pbc Calc) (q : quad) (w : World) :
  all_in_bounds atoms q = true ->
  dihedral_of atoms (quad_map (wrap_index (List.length (get_positions atoms))) q) w
  = dihedral_of atoms q w.
Proof.
  destruct q as [[[i j] k] l]. unfold all_in_bounds; cbn [quad_list forallb quad_map].
  rewrite !andb_true_iff. intros (Hi & Hj & Hk & Hl & _).
  unfold dihedral_of.
  now rewrite !py_index_wrap by assumption.
Qed.

(** *** What the optimiser receives *)

(** X17. What the optimiser is started on: once reading, constraint
    set-up and calculator loading have succeeded, BFGS receives the atoms
    as read (symbols, positions, cell, periodicity), with
    [info["charge"]] and [info["spin"]] set from the command line, the
    calculator attached, and at most one constraint: exactly one if and
    only if [--dihedral_indices] was given. *)
Theorem optimizer_input args w (atoms0 atoms1 : Atoms F Cell Pbc Calc) w1 w2 c w3 :
  read (input_file args) (log w (banner script)) = (inr atoms0, w1) ->
  setup_constraint format_float args (set_info atoms0 (charge args) (spin args)) w1
    = (inr atoms1, w2) ->
  load_calculator w2 = (inr c, w3) ->
  exists A,
    main format_float script read load_calculator bfgs_run get_potential_energy args w
    = bind (bfgs_run A) (report format_float get_potential_energy args)
           (log w3 ["Starting geometry optimization..."]) /\
    sites A = sites atoms0 /\ cell A = cell atoms0 /\ pbc A = pbc atoms0 /\
    info_charge A = Some (charge args) /\ info_spin A = Some (spin args) /\
    calc A = Some c /\ (List.length (constraints A) <= 1)%nat /\
    (List.length (constraints A) = 1%nat <-> dihedral_indices args <> None).
Proof.
  intros Hr Hs Hc. exists (set_calc atoms1 c).
  split.
  { exact (main_reaches_optimizer format_float script read load_calculator bfgs_run
             get_potential_energy args w atoms0 w1 atoms1 w2 c w3 Hr Hs Hc). }
  destruct (setup_success_shape _ _ _ _ _ Hs)
    as (S & C & P & Q & R & _ & _ & K).
  cbn [set_calc sites cell pbc info_charge info_spin calc constraints].
  rewrite S, C, P, Q, R. cbn [set_info sites cell pbc info_charge info_spin].
  repeat split; try reflexivity.
  - destruct (dihedral_indices args); [destruct K as [t ->] | rewrite K]; cbn; lia.
  - destruct (dihedral_indices args); [discriminate|]. rewrite K. cbn. lia.
  - destruct (dihedral_indices args); [destruct K as [t ->]; reflexivity | contradiction].
Qed.


(** *** Files *)

Lemma setup_files args (atoms : Atoms F Cell Pbc Calc) w :
  files (snd (setup_constraint format_float args atoms w)) = files w.
Proof.
  destruct (setup_constraint format_float args atoms w) as [[e|a] w'] eqn:E; cbn [snd].
  - destruct args as [inp out c s [idx|] ang]; cbn [dihedral_indices dihedral_angle] in *.
    + destruct ang as [t|].
      * rewrite setup_user_specified in E. discriminate.
      * destruct (dihedral_of_cases atoms (zero_based idx) (log w [constraining_line idx]))
          as [[_ [cur D]] | [B _]].
        -- rewrite (setup_fixed_current _ _ _ _ _ _ _ _ _ D) in E. discriminate.
        -- rewrite (setup_index_error _ _ _ _ _ _ _ _ B) in E.
           injection E as _ <-. reflexivity.
    + cbv in E. discriminate.
  - now destruct (setup_success_shape _ _ _ _ _ E) as (_ & _ & _ & _ & _ & _ & Fw & _).
Qed.

Section QuietCollaborators.
Hypothesis read_quiet : forall p w, files (snd (read p w)) = files w.
Hypothesis load_quiet : forall w, files (snd (load_calculator w)) = files w.
Hypothesis bfgs_quiet : forall a w, files (snd (bfgs_run a w)) = files w.
Hypothesis energy_quiet : forall a w, files (snd (get_potential_energy a w)) = files w.

Lemma report_files args (atoms : Atoms F Cell Pbc Calc) w :
  match report format_float get_potential_energy args atoms w with
  | (inl _, w') => files w' = files w
  | (inr _, w') =>
      exists cmt, files w' = (output_file args, xyz_text format_float (sites atoms) cmt) :: files w
  end.
Proof.
  unfold report. unfold bind at 1.
  pose proof (energy_quiet atoms w) as Q.
  destruct (get_potential_energy atoms w) as [[e|E] w1]; cbn [snd] in Q; [exact Q|].
  unfold bind at 1.
  destruct (actual_angle_cases args atoms w1) as [(a & w2 & A & Fw) | A]; rewrite A.
  - cbv [bind print write_file]. cbn [stdout files].
    eexists. rewrite Fw, Q. reflexivity.
  - exact Q.
Qed.

Lemma main_files args w :
  match main format_float script read load_calculator bfgs_run get_potential_energy args w with
  | (inl _, w') => files w' = files w
  | (inr _, w') =>
      exists (final : Atoms F Cell Pbc Calc) cmt,
        files w' = (output_file args, xyz_text format_float (sites final) cmt) :: files w
  end.
Proof.
  unfold main. unfold bind at 1. unfold print at 1. unfold bind at 1. unfold print at 1.
  unfold bind at 1.
  match goal with |- context [read ?p ?w0] =>
    pose proof (read_quiet p w0) as Q1; destruct (read p w0) as [[e|a0] w1] end;
    cbn [snd files] in Q1; [exact Q1|].
  unfold bind at 1.
  match goal with |- context [setup_constraint ?f ?ar ?at0 ?w0] =>
    pose proof (setup_files ar at0 w0) as Q2;
    destruct (setup_constraint f ar at0 w0) as [[e|a1] w2] end;
    cbn [snd] in Q2; [congruence|].
  unfold bind at 1.
  pose proof (load_quiet w2) as Q3.
  destruct (load_calculator w2) as [[e|c] w3]; cbn [snd] in Q3; [congruence|].
  unfold bind at 1. unfold print at 1. unfold bind at 1.
  match goal with |- context [bfgs_run ?a ?w0] =>
    pose proof (bfgs_quiet a w0) as Q4; destruct (bfgs_run a w0) as [[e|a2] w4] end;
    cbn [snd files] in Q4; [congruence|].
  pose proof (report_files args a2 w4) as R.
  destruct (report format_float get_potential_energy args a2 w4) as [[e|u] w5].
  - congruence.
  - destruct R as [cmt R]. exists a2, cmt. rewrite R. congruence.
Qed.

End QuietCollaborators.

(** X18. If the collaborators (reader, calculator factory, optimiser,
    energy query) write no files themselves, a run that fails at any
    point leaves the files as they were, and a run that succeeds has
    added exactly one file, [args.output_file], in XYZ format. *)
Theorem run_writes_one_file_or_none args w r w' :
  (forall p w, files (snd (read p w)) = files w) ->
  (forall w, files (snd (load_calculator w)) = files w) ->
  (forall a w, files (snd (bfgs_run a w)) = files w) ->
  (forall a w, files (snd (get_potential_energy a w)) = files w) ->
  main format_float script read load_calculator bfgs_run get_potential_energy args w = (r, w') ->
  match r with
  | inl _ => files w' = files w
  | inr _ =>
      exists (final : Atoms F Cell Pbc Calc) cmt,
        files w' = (output_file args, xyz_text format_float (sites final) cmt) :: files w
  end.
Proof.
  intros H1 H2 H3 H4 E. pose proof (main_files H1 H2 H3 H4 args w) as Q.
  rewrite E in Q. exact Q.
Qed.

(** *** The text of the output file *)

Lemma count_newlines_app (a b : string) :
  count_newlines (a ++ b) = (count_newlines a + count_newlines b)%nat.
Proof. induction a as [|c a IH]; cbn; [reflexivity | rewrite IH; lia]. Qed.

Lemma count_newlines_uint (d : Decimal.uint) :
  count_newlines (NilEmpty.string_of_uint d) = 0%nat.
Proof. induction d; cbn; assumption || reflexivity. Qed.

Lemma count_newlines_str_int (z : Z) : count_newlines (str_int z) = 0%nat.
Proof.
  unfold str_int, NilZero.string_of_int, NilZero.string_of_uint.
  destruct (Z.to_int z) as [d|d]; destruct d; cbn;
    try reflexivity; apply count_newlines_uint.
Qed.

Lemma count_newlines_pad2 (s : string) : count_newlines (pad2 s) = count_newlines s.
Proof.
  unfold pad2. destruct s as [|c [|c' s]]; cbn [String.length]; try reflexivity.
Qed.

Section PlainFormat.
Hypothesis format_plain : forall spec x, count_newlines (format_float spec x) = 0%nat.

Lemma count_newlines_atom_line (s : string * vec3 F) :
  count_newlines (fst s) = 0%nat -> count_newlines (atom_line format_float s) = 1%nat.
Proof.
  intros H. unfold atom_line.
  rewrite !count_newlines_app, count_newlines_pad2, H, !format_plain. reflexivity.
Qed.

Lemma count_newlines_atom_lines (l : list (string * vec3 F)) :
  Forall (fun s => count_newlines (fst s) = 0%nat) l ->
  count_newlines (String.concat "" (map (atom_line format_float) l)) = List.length l.
Proof.
  induction 1 as [|s l Hs Hl IH]; [reflexivity|].
  cbn [map List.length]. destruct l as [|s' l'].
  - cbn [map String.concat]. now apply count_newlines_atom_line.
  - change (String.concat "" (atom_line format_float s :: map (atom_line format_float) (s' :: l')))
      with (atom_line format_float s ++ "" ++ String.concat "" (map (atom_line format_float) (s' :: l'))).
    rewrite !count_newlines_app, IH, (count_newlines_atom_line s Hs). reflexivity.
Qed.

Lemma count_newlines_dashes (l : list Z) :
  count_newlines (String.concat "-" (map str_int l)) = 0%nat.
Proof.
  induction l as [|z l IH]; [reflexivity|].
  cbn [map]. destruct l as [|z' l'].
  - apply count_newlines_str_int.
  - change (String.concat "-" (str_int z :: map str_int (z' :: l')))
      with (str_int z ++ "-" ++ String.concat "-" (map str_int (z' :: l'))).
    rewrite !count_newlines_app, IH, count_newlines_str_int. reflexivity.
Qed.

Lemma count_newlines_comment args a E :
  count_newlines (comment format_float args a E) = 0%nat.
Proof.
  unfold comment, angle_source.
  destruct (dihedral_indices args) as [idx|], a as [a|], (dihedral_angle args);
    rewrite !count_newlines_app, ?count_newlines_dashes, !format_plain; reflexivity.
Qed.

Lemma count_newlines_xyz_text args a E (clean_atoms : list (string * vec3 F)) :
  Forall (fun s => count_newlines (fst s) = 0%nat) clean_atoms ->
  count_newlines (xyz_text format_float clean_atoms (comment format_float args a E))
  = (List.length clean_atoms + 2)%nat.
Proof.
  intros H. unfold xyz_text.
  rewrite !count_newlines_app, count_newlines_str_int, count_newlines_comment,
    (count_newlines_atom_lines _ H).
  cbn. lia.
Qed.

End PlainFormat.

(** X19. The output file has the XYZ shape: when float formatting and
    the chemical symbols produce no line feed, the text written for n
    atoms has exactly n + 2 lines (atom count, comment, one line per
    atom), so the comment built in lines 156-161 never breaks the second
    line. *)
Theorem xyz_line_count args a E (clean_atoms : list (string * vec3 F)) :
  (forall spec x, count_newlines (format_float spec x) = 0%nat) ->
  Forall (fun s => count_newlines (fst s) = 0%nat) clean_atoms ->
  count_newlines (xyz_text format_float clean_atoms (comment format_float args a E))
  = (List.length clean_atoms + 2)%nat.
Proof. intros Hf Hs. now apply count_newlines_xyz_text. Qed.

End Runs.

(** *** On sample runs *)

Import Exact RealGeometry Samples.

Lemma setup_touches_only_constraints_witness :
  let atoms' := set_constraint bent [mkFixInternals [(XFin 400, (0, 1, 2, 3)%Z)]] in
  let w' := log empty_world
              [constraining_line (1, 2, 3, 4)%Z;
               "Using user-specified target dihedral angle: <.2f>°"] in
  setup_constraint show target_args bent empty_world = (inr atoms', w') /\
  sites atoms' = sites bent /\ cell atoms' = cell bent /\ pbc atoms' = pbc bent /\
  info_charge atoms' = info_charge bent /\ info_spin atoms' = info_spin bent /\
  calc atoms' = calc bent /\ files w' = files empty_world /\
  exists t, constraints atoms' = [mkFixInternals [(t, zero_based (1, 2, 3, 4)%Z)]].
Proof.
  intros atoms' w'. split; [reflexivity|].
  apply (setup_touches_only_constraints show target_args bent atoms' empty_world w').
  reflexivity.
Defined.

Lemma setup_fails_only_on_index_witness :
  let args := mkArgs "in.xyz" "out.xyz" (XFin 0) (XFin 1) (Some (1, 1, 5, 0)%Z) None in
  let w' := log empty_world [constraining_line (1, 1, 5, 0)%Z] in
  setup_constraint show args bent empty_world = (inl IndexError, w') /\
  IndexError = IndexError /\ dihedral_angle args = None /\
  exists idx, dihedral_indices args = Some idx /\
              all_in_bounds bent (zero_based idx) = false /\
              w' = log empty_world [constraining_line idx].
Proof.
  intros args w'. split; [reflexivity|].
  apply (setup_fails_only_on_index show args bent empty_world IndexError w').
  reflexivity.
Defined.

Lemma report_writes_last_witness :
  let args := mkArgs "in.xyz" "out.xyz" (XFin 0) (XFin 1) None None in
  let w' := snd (report show energy_zero args bent empty_world) in
  report show energy_zero args bent empty_world = (inr tt, w') /\
  exists E w1 cmt,
    energy_zero bent empty_world = (inr E, w1) /\
    files w' = (output_file args, xyz_text show (sites bent) cmt) :: files w1.
Proof.
  intros args w'. split; [reflexivity|].
  apply (report_writes_last show energy_zero args bent empty_world (inr tt) w').
  reflexivity.
Defined.

Lemma negative_index_wraps_witness :
  all_in_bounds bent (-4, 1, -2, 3)%Z = true /\
  dihedral_of bent (quad_map (wrap_index (List.length (get_positions bent))) (-4, 1, -2, 3)%Z)
    empty_world
  = dihedral_of bent (-4, 1, -2, 3)%Z empty_world.
Proof.
  split; [reflexivity|].
  apply (negative_index_wraps bent (-4, 1, -2, 3)%Z empty_world). reflexivity.
Defined.

Lemma optimizer_input_witness :
  exists A w3,
    main show "opt.py" read_bent calc_unit bfgs_id energy_zero target_args empty_world
    = bind (bfgs_id A) (report show energy_zero target_args)
           (log w3 ["Starting geometry optimization..."]) /\
    sites A = sites bent /\ info_charge A = Some (XFin 0) /\ info_spin A = Some (XFin 1) /\
    calc A = Some tt /\ List.length (constraints A) = 1%nat.
Proof.
  destruct (optimizer_input show "opt.py" read_bent calc_unit bfgs_id energy_zero
              target_args empty_world bent
              (set_constraint (set_info bent (XFin 0) (XFin 1))
                 [mkFixInternals [(XFin 400, (0, 1, 2, 3)%Z)]])
              (log empty_world (banner "opt.py"))
              (log (log empty_world (banner "opt.py"))
                 [constraining_line (1, 2, 3, 4)%Z;
                  "Using user-specified target dihedral angle: <.2f>°"])
              tt
              (log (log empty_world (banner "opt.py"))
                 [constraining_line (1, 2, 3, 4)%Z;
                  "Using user-specified target dihedral angle: <.2f>°"])
              eq_refl eq_refl eq_refl)
    as (A & Hm & Hs & _ & _ & Hc & Hp & Hk & _ & Hl).
  exists A. eexists. split; [exact Hm|].
  split; [exact Hs|]. split; [exact Hc|]. split; [exact Hp|]. split; [exact Hk|].
  apply Hl. discriminate.
Defined.

Lemma run_writes_one_file_or_none_witness :
  let args := mkArgs "in.xyz" "out.xyz" (XFin 0) (XFin 1) None None in
  let w' := snd (main show "opt.py" read_bent calc_unit bfgs_id energy_zero args empty_world) in
  exists (final : Atoms xreal unit unit unit) cmt,
    files w' = (output_file args, xyz_text show (sites final) cmt) :: files empty_world.
Proof.
  intros args w'.
  apply (run_writes_one_file_or_none show "opt.py" read_bent calc_unit bfgs_id energy_zero
           args empty_world (inr tt) w'); try (intros; reflexivity).
Defined.

Lemma xyz_line_count_witness :
  count_newlines
    (xyz_text plain (sites bent) (comment plain target_args (Some (XFin 90)) (XFin 0)))
  = 6%nat.
Proof.
  apply (xyz_line_count plain target_args (Some (XFin 90)) (XFin 0) (sites bent)).
  - intros spec x. reflexivity.
  - repeat constructor.
Defined.

End DriverExtras.

(** ** Whole runs *)

Module RunFacts.
Import DriverFacts.

Section Runs.
Context {F : Type} {AF : Arith F} {LF : Libm F}.
Variable format_float : string -> F -> string.
Variable script : string.
Context {Cell Pbc Calc : Type}.
Variable read : string -> M (Atoms F Cell Pbc Calc).
Variable load_calculator : M Calc.
Variable bfgs_run : Atoms F Cell Pbc Calc -> M (Atoms F Cell Pbc Calc).
Variable get_potential_energy : Atoms F Cell Pbc Calc -> M F.

(** Once the optimiser has returned, the rest of the run is the report on
    the atoms it returned. *)
Lemma main_reports args w (atoms0 atoms1 : Atoms F Cell Pbc Calc) w1 w2 c w3 final w5 :
  read (input_file args) (log w (banner script)) = (inr atoms0, w1) ->
  setup_constraint format_float args (set_info atoms0 (charge args) (spin args)) w1
    = (inr atoms1, w2) ->
  load_calculator w2 = (inr c, w3) ->
  bfgs_run (set_calc atoms1 c) (log w3 ["Starting geometry optimization..."])
    = (inr final, w5) ->
  main format_float script read load_calculator bfgs_run get_potential_energy args w
  = report format_float get_potential_energy args final w5.
Proof.
  intros Hr Hs Hc Hb.
  rewrite (main_reaches_optimizer format_float script read load_calculator bfgs_run
             get_potential_energy args w atoms0 w1 atoms1 w2 c w3 Hr Hs Hc).
  unfold bind. now rewrite Hb.
Qed.

(** A constrained run from the command line to the output file. *)
Lemma constrained_run inp out c s i j k l ang w
    (atoms0 : Atoms F Cell Pbc Calc) w1 target line cal w3 final w5 E w6 qi qj qk ql :
  read inp (log w (banner script)) = (inr atoms0, w1) ->
  setup_constraint format_float (mkArgs inp out c s (Some (i, j, k, l)) ang)
    (set_info atoms0 c s) w1
  = (inr (set_constraint (set_info atoms0 c s)
            [mkFixInternals [(target, (i - 1, j - 1, k - 1, l - 1)%Z)]]),
     log w1 [constraining_line (i, j, k, l); line]) ->
  load_calculator (log w1 [constraining_line (i, j, k, l); line]) = (inr cal, w3) ->
  bfgs_run
    (set_calc
       (set_constraint (set_info atoms0 c s)
          [mkFixInternals [(target, (i - 1, j - 1, k - 1, l - 1)%Z)]])
       cal)
    (log w3 ["Starting geometry optimization..."])
  = (inr final, w5) ->
  get_potential_energy final w5 = (inr E, w6) ->
  py_index (get_positions final) (i - 1) = inr qi ->
  py_index (get_positions final) (j - 1) = inr qj ->
  py_index (get_positions final) (k - 1) = inr qk ->
  py_index (get_positions final) (l - 1) = inr ql ->
  let achieved := normalize_to_0_360 (calc_dihedral qi qj qk ql) in
  let cmt := "dihedral="
             ++ (str_int i ++ "-" ++ str_int j ++ "-" ++ str_int k ++ "-" ++ str_int l)
             ++ " actual_angle=" ++ format_float ".2f" achieved
             ++ " energy=" ++ format_float ".6f" E
             ++ " eV charge=" ++ format_float "" c ++ " spin=" ++ format_float "" s
             ++ " constraint_source="
             ++ match ang with None => "fixed_current" | Some _ => "user_specified" end in
  main format_float script read load_calculator bfgs_run get_potential_energy
       (mkArgs inp out c s (Some (i, j, k, l)) ang) w
  = (inr tt,
     mkWorld (stdout w6
                ++ ["Actual dihedral angle: " ++ format_float ".2f" achieved ++ "°";
                    "Optimization finished.";
                    "Final energy: " ++ format_float ".6f" E ++ " eV";
                    "Optimized structure saved to " ++ out ++ " with comment: " ++ cmt])
             ((out, xyz_text format_float (sites final) cmt) :: files w6)).
Proof.
  intros Hr Hs Hc Hb He Hi Hj Hk Hl achieved cmt.
  rewrite (main_reports (mkArgs inp out c s (Some (i, j, k, l)) ang)
             w atoms0 _ w1 _ cal w3 final w5 Hr Hs Hc Hb).
  apply (report_constrained format_float get_potential_energy inp out c s (i, j, k, l) ang
           final w5 E w6 (calc_dihedral qi qj qk ql) He).
  now apply dihedral_of_ok.
Qed.

(** C4.  A constrained run without [--dihedral_angle] starts the
    optimiser on atoms whose constraint target is [calc_dihedral] of the
    positions as read from the input file, and a run with an explicit
    angle on atoms whose target is that angle.  When the optimiser and the
    energy query succeed, the run writes the output file and prints its
    last line with a comment that ends with
    constraint_source=fixed_current in the first case and with
    constraint_source=user_specified in the second. *)
Theorem fixed_current_target inp out c s i j k l ang w
    (atoms0 : Atoms F Cell Pbc Calc) w1 pi pj pk pl cal w3 final w5 E w6 qi qj qk ql :
  let args := mkArgs inp out c s (Some (i, j, k, l)) ang in
  let current := calc_dihedral pi pj pk pl in
  let target := match ang with None => current | Some t => t end in
  let line :=
    match ang with
    | None => "--dihedral_angle not specified. Using current dihedral angle: "
                ++ format_float ".2f" current ++ "°"
    | Some t => "Using user-specified target dihedral angle: "
                  ++ format_float ".2f" t ++ "°"
    end in
  let constrained :=
    set_calc
      (set_constraint (set_info atoms0 c s)
         [mkFixInternals [(target, (i - 1, j - 1, k - 1, l - 1)%Z)]])
      cal in
  read inp (log w (banner script)) = (inr atoms0, w1) ->
  (ang = None ->
   py_index (get_positions atoms0) (i - 1) = inr pi /\
   py_index (get_positions atoms0) (j - 1) = inr pj /\
   py_index (get_positions atoms0) (k - 1) = inr pk /\
   py_index (get_positions atoms0) (l - 1) = inr pl) ->
  load_calculator (log w1 [constraining_line (i, j, k, l); line]) = (inr cal, w3) ->
  bfgs_run constrained (log w3 ["Starting geometry optimization..."]) = (inr final, w5) ->
  get_potential_energy final w5 = (inr E, w6) ->
  py_index (get_positions final) (i - 1) = inr qi ->
  py_index (get_positions final) (j - 1) = inr qj ->
  py_index (get_positions final) (k - 1) = inr qk ->
  py_index (get_positions final) (l - 1) = inr ql ->
  let achieved := normalize_to_0_360 (calc_dihedral qi qj qk ql) in
  let source := match ang with None => "fixed_current" | Some _ => "user_specified" end in
  let cmt := "dihedral="
             ++ (str_int i ++ "-" ++ str_int j ++ "-" ++ str_int k ++ "-" ++ str_int l)
             ++ " actual_angle=" ++ format_float ".2f" achieved
             ++ " energy=" ++ format_float ".6f" E
             ++ " eV charge=" ++ format_float "" c ++ " spin=" ++ format_float "" s
             ++ " constraint_source=" ++ source in
  main format_float script read load_calculator bfgs_run get_potential_energy args w
  = bind (bfgs_run constrained) (report format_float get_potential_energy args)
         (log w3 ["Starting geometry optimization..."]) /\
  main format_float script read load_calculator bfgs_run get_potential_energy args w
  = (inr tt,
     mkWorld (stdout w6
                ++ ["Actual dihedral angle: " ++ format_float ".2f" achieved ++ "°";
                    "Optimization finished.";
                    "Final energy: " ++ format_float ".6f" E ++ " eV";
                    "Optimized structure saved to " ++ out ++ " with comment: " ++ cmt])
             ((out, xyz_text format_float (sites final) cmt) :: files w6)).
Proof.
  intros args current target line constrained Hr Hp Hc Hb He Hi Hj Hk Hl achieved source cmt.
  assert (Hs : setup_constraint format_float args (set_info atoms0 c s) w1
               = (inr (set_constraint (set_info atoms0 c s)
                         [mkFixInternals [(target, (i - 1, j - 1, k - 1, l - 1)%Z)]]),
                  log w1 [constraining_line (i, j, k, l); line])).
  { unfold args, target, line. destruct ang as [t|].
    - apply setup_user_specified.
    - destruct (Hp eq_refl) as (Pi & Pj & Pk & Pl).
      apply (setup_fixed_current format_float inp out c s (i, j, k, l)).
      now apply dihedral_of_ok. }
  split.
  - apply (main_reaches_optimizer format_float script read load_calculator bfgs_run
             get_potential_energy args w atoms0 w1 _ _ cal w3 Hr Hs Hc).
  - apply (constrained_run inp out c s i j k l ang w atoms0 w1 target line cal w3
             final w5 E w6 qi qj qk ql Hr Hs Hc Hb He Hi Hj Hk Hl).
Qed.

End Runs.
End RunFacts.

(** ** The range of calc_dihedral on binary64 *)

Module Binary64RangeFacts.
Import Binary64 Binary64Libm Binary64Range NormalizeFacts.
Local Open Scope Z_scope.

(** *** Comparisons *)

Lemma SFcompare_antisym (x y : float64) :
  SFcompare y x = option_map CompOpp (SFcompare x y).
Proof.
  destruct x as [sx|sx| |sx mx ex], y as [sy|sy| |sy my ey]; cbn;
    try reflexivity;
    try (destruct sx; reflexivity); try (destruct sy; reflexivity);
    try (destruct sx, sy; reflexivity).
  destruct sx, sy; cbn; try reflexivity.
  - rewrite (Z.compare_antisym ex ey).
    destruct (ex ?= ey); cbn; try reflexivity.
    pose proof (Pos.compare_cont_antisym mx my Eq) as A. cbn in A.
    rewrite <- A. now destruct (Pos.compare_cont Eq mx my).
  - rewrite (Z.compare_antisym ex ey).
    destruct (ex ?= ey); cbn; try reflexivity.
    pose proof (Pos.compare_cont_antisym mx my Eq) as A. cbn in A.
    rewrite <- A. now destruct (Pos.compare_cont Eq mx my).
Qed.

Lemma SFcompare_none (x y : float64) :
  SFcompare x y = None -> x = S754_nan \/ y = S754_nan.
Proof.
  destruct x as [sx|sx| |sx mx ex], y as [sy|sy| |sy my ey]; cbn;
    try discriminate; auto.
Qed.

Lemma SFcompare_refl (x : float64) : x <> S754_nan -> SFcompare x x = Some Eq.
Proof.
  destruct x as [s|s| |s m e]; cbn; intros H; try reflexivity.
  - now destruct s.
  - contradiction.
  - rewrite Z.compare_refl.
    assert (E : Pos.compare_cont Eq m m = Eq)
      by (rewrite Pos.compare_cont_spec; now rewrite Pos.compare_refl).
    rewrite E. now destruct s.
Qed.

(** Among floats that are not NaN, [x < y] or [y <= x]. *)
Lemma SFltb_false_leb (x y : float64) :
  x <> S754_nan -> y <> S754_nan -> SFltb x y = false -> SFleb y x = true.
Proof.
  intros Hx Hy. unfold SFltb, SFleb. rewrite (SFcompare_antisym x y).
  destruct (SFcompare x y) as [[| |]|] eqn:E; cbn; try reflexivity; try discriminate.
  destruct (SFcompare_none _ _ E); contradiction.
Qed.

Lemma SFltb_leb (x y : float64) : SFltb x y = true -> SFleb x y = true.
Proof. unfold SFltb, SFleb. now destruct (SFcompare x y) as [[| |]|]. Qed.

Lemma SFleb_refl (x : float64) : x <> S754_nan -> SFleb x x = true.
Proof. intros H. unfold SFleb. now rewrite SFcompare_refl. Qed.

Lemma SFltb_nan_l (y : float64) : SFltb S754_nan y = false.
Proof. reflexivity. Qed.

Lemma SFltb_not_nan (x y : float64) :
  SFltb x y = true -> x <> S754_nan /\ y <> S754_nan.
Proof.
  unfold SFltb. intros H. split; intros ->; [discriminate|].
  destruct x; discriminate.
Qed.

Lemma fisnan_spec (x : float64) : fisnan x = true <-> x = S754_nan.
Proof.
  unfold fisnan. cbn [feq float64_arith]. unfold SFeqb. split.
  - intros H. destruct x as [s|s| |s m e]; try reflexivity;
      rewrite SFcompare_refl in H by discriminate; discriminate.
  - intros ->. reflexivity.
Qed.

(** *** The clip *)

(** [np.clip(x, lo, hi)] is NaN for NaN and lies between the bounds
    otherwise. *)
Lemma clip_between (x lo hi : float64) :
  lo <> S754_nan -> hi <> S754_nan -> SFleb lo hi = true ->
  (x = S754_nan /\ clip x lo hi = S754_nan) \/
  (x <> S754_nan /\ SFleb lo (clip x lo hi) = true /\ SFleb (clip x lo hi) hi = true).
Proof.
  intros Hlo Hhi Hle. unfold clip, np_max, np_min.
  destruct (fisnan x) eqn:Nx.
  - apply fisnan_spec in Nx. subst x. left. split; reflexivity.
  - assert (Hx : x <> S754_nan)
      by (intros E; apply fisnan_spec in E; congruence).
    right. split; [exact Hx|].
    unfold fgt. cbn [flt float64_arith].
    destruct (SFltb lo x) eqn:L1.
    + rewrite Nx. destruct (SFltb x hi) eqn:L2.
      * split; [now apply SFltb_leb | now apply SFltb_leb].
      * split; [exact Hle | now apply SFleb_refl].
    + assert (Nlo : fisnan lo = false).
      { destruct (fisnan lo) eqn:E; [apply fisnan_spec in E; contradiction | reflexivity]. }
      rewrite Nlo. destruct (SFltb lo hi) eqn:L2.
      * split; [now apply SFleb_refl | exact Hle].
      * split; [exact Hle | now apply SFleb_refl].
Qed.

(** *** The sign *)

Lemma np_sign_cases (x : float64) :
  (x = S754_nan /\ np_sign x = S754_nan) \/
  (x <> S754_nan /\
   (np_sign x = of_Z 1 \/ np_sign x = of_Z (-1) \/ np_sign x = S754_zero false)).
Proof.
  destruct x as [s|s| |s m e].
  - right. split; [discriminate|]. right; right. now destruct s.
  - right. split; [discriminate|]. destruct s; [right; now left | now left].
  - left. split; reflexivity.
  - right. split; [discriminate|]. destruct s; [right; now left | now left].
Qed.

(** *** Rounding against a representable bound *)

Lemma shr_1_shifted (m0 k : Z) (mrs : shr_record) :
  0 <= k -> shifted m0 k mrs -> shifted m0 (k + 1) (shr_1 mrs).
Proof.
  intros Hk (H0 & Hb & Hx). unfold shifted.
  rewrite Z.pow_add_r by lia. change (2 ^ 1) with 2.
  assert (P : 0 < 2 ^ k) by (apply Z.pow_pos_nonneg; lia).
  destruct mrs as [m r s]. cbn [shr_m shr_r shr_s] in *.
  destruct m as [|[p|p|]|p]; cbn [shr_1 shr_m shr_r shr_s]; try lia.
  - split; [lia|]. split; [lia|]. intros E.
    destruct (Hx ltac:(lia)) as [-> ->]. split; reflexivity.
  - rewrite (Pos2Z.inj_xO p) in *. split; [lia|]. split; [lia|]. intros E.
    destruct (Hx ltac:(lia)) as [-> ->]. split; reflexivity.
Qed.

Lemma iter_shr_1_shifted (m0 : Z) (n : positive) : forall (k : Z) (mrs : shr_record),
  0 <= k -> shifted m0 k mrs -> shifted m0 (k + Zpos n) (iter_pos shr_1 n mrs).
Proof.
  induction n as [n IH|n IH|]; intros k mrs Hk H; cbn [iter_pos].
  - replace (k + Zpos n~1) with (k + 1 + Zpos n + Zpos n) by lia.
    apply IH; [lia|]. apply IH; [lia|]. now apply shr_1_shifted.
  - replace (k + Zpos n~0) with (k + Zpos n + Zpos n) by lia.
    apply IH; [lia|]. now apply IH.
  - now apply shr_1_shifted.
Qed.

(** The first shift of a rounding: quotient, new exponent, and flags that
    are clear when the shift is exact. *)
Lemma shr_fexp_shifted (m e : Z) :
  0 <= m ->
  let '(mrs, e') := shr_fexp prec emax m e loc_Exact in
  let n := Z.max 0 (fexp prec emax (Zdigits2 m + e) - e) in
  e' = e + n /\ shifted m n mrs.
Proof.
  intros Hm. unfold shr_fexp, shr. cbn [shr_record_of_loc].
  assert (I : shifted m 0 (Build_shr_record m false false)).
  { unfold shifted. cbn [shr_m shr_r shr_s]. rewrite Z.pow_0_r. repeat split; lia. }
  destruct (fexp prec emax (Zdigits2 m + e) - e) as [|n|n] eqn:E.
  - cbn [Z.max]. split; [lia | exact I].
  - replace (Z.max 0 (Zpos n)) with (0 + Zpos n) by lia. split; [lia|].
    now apply iter_shr_1_shifted.
  - replace (Z.max 0 (Zneg n)) with 0 by lia. split; [lia | exact I].
Qed.

(** Rounding to nearest does not pass an integer bound of the shifted
    value. *)
Lemma round_shifted (m0 n b : Z) (mrs : shr_record) :
  0 <= n -> shifted m0 n mrs -> m0 <= b * 2 ^ n ->
  0 <= round_nearest_even (shr_m mrs) (loc_of_shr_record mrs) <= b.
Proof.
  intros Hn (H0 & Hb & Hx) Hle.
  assert (P : 0 < 2 ^ n) by (apply Z.pow_pos_nonneg; lia).
  assert (Q : shr_m mrs <= b) by nia.
  destruct mrs as [m r s]. cbn [shr_m shr_r shr_s] in *.
  assert (R : (r = true \/ s = true) -> m + 1 <= b).
  { intros Hrs. assert (m0 <> m * 2 ^ n).
    { intros E. destruct (Hx E) as [-> ->]. destruct Hrs; discriminate. }
    nia. }
  destruct r, s; cbn [loc_of_shr_record round_nearest_even].
  - specialize (R (or_introl eq_refl)). lia.
  - specialize (R (or_introl eq_refl)). destruct (Z.even m); lia.
  - lia.
  - lia.
Qed.

Section Bound.
(** A bound [B * 2^eb] with a mantissa of at most 53 bits and an exponent
    in the range of the format. *)
Variables (B eb : Z).
Hypothesis B_pos : 0 < B.
Hypothesis B_53 : B < 2 ^ 53.
Hypothesis eb_min : -1074 <= eb.
Hypothesis eb_max : eb <= 971.

Lemma digits_below (m e : Z) :
  0 <= m -> e <= eb -> m <= B * 2 ^ (eb - e) -> Zdigits2 m + e <= 53 + eb.
Proof.
  intros Hm He Hb. destruct m as [|p|p]; [cbn [Zdigits2]; lia | | lia].
  cbn [Zdigits2]. pose proof (digits2_bounds p) as [L _].
  assert (P : 0 < 2 ^ (eb - e)) by (apply Z.pow_pos_nonneg; lia).
  assert (Hlt : 2 ^ (Zpos (digits2_pos p) - 1) < 2 ^ (53 + (eb - e))).
  { rewrite Z.pow_add_r by lia.
    assert (B * 2 ^ (eb - e) < 2 ^ 53 * 2 ^ (eb - e))
      by (apply Z.mul_lt_mono_pos_r; assumption).
    lia. }
  apply Z.pow_lt_mono_r_iff in Hlt; lia.
Qed.

Lemma fexp_below (m e : Z) :
  0 <= m -> e <= eb -> m <= B * 2 ^ (eb - e) ->
  fexp prec emax (Zdigits2 m + e) <= eb.
Proof.
  intros Hm He Hb. pose proof (digits_below m e Hm He Hb).
  unfold fexp, SpecFloat.emin, prec, emax. lia.
Qed.

(** Rounding a non-negative number that is at most [B * 2^eb] yields a
    zero or a finite float that is at most [B * 2^eb]. *)
Lemma binary_round_aux_le (s : bool) (m e : Z) :
  0 <= m -> e <= eb -> m <= B * 2 ^ (eb - e) ->
  binary_round_aux prec emax s m e loc_Exact = S754_zero s \/
  exists p e2,
    binary_round_aux prec emax s m e loc_Exact = S754_finite s p e2 /\
    e2 <= eb /\ Zpos p <= B * 2 ^ (eb - e2).
Proof.
  intros Hm He Hb. unfold binary_round_aux.
  pose proof (fexp_below m e Hm He Hb) as Hf.
  pose proof (shr_fexp_shifted m e Hm) as S1.
  destruct (shr_fexp prec emax m e loc_Exact) as [mrs' e1].
  set (n := Z.max 0 (fexp prec emax (Zdigits2 m + e) - e)) in *.
  destruct S1 as [-> S1].
  assert (Hn : 0 <= n) by (unfold n; lia).
  assert (He1 : e + n <= eb) by (unfold n; lia).
  assert (E : 2 ^ (eb - e) = 2 ^ (eb - (e + n)) * 2 ^ n).
  { rewrite <- Z.pow_add_r by lia. f_equal. lia. }
  rewrite E, Z.mul_assoc in Hb.
  pose proof (round_shifted m n (B * 2 ^ (eb - (e + n))) mrs' Hn S1 Hb) as [R0 R1].
  set (m1 := round_nearest_even (shr_m mrs') (loc_of_shr_record mrs')) in *.
  pose proof (fexp_below m1 (e + n) R0 He1 R1) as Hf2.
  pose proof (shr_fexp_spec m1 (e + n) loc_Exact R0) as S2.
  destruct (shr_fexp prec emax m1 (e + n) loc_Exact) as [mrs'' e2].
  set (n2 := Z.max 0 (fexp prec emax (Zdigits2 m1 + (e + n)) - (e + n))) in *.
  destruct S2 as [-> S2].
  assert (Hn2 : 0 <= n2) by (unfold n2; lia).
  assert (He2 : e + n + n2 <= eb) by (unfold n2; lia).
  assert (P2 : 0 < 2 ^ n2) by (apply Z.pow_pos_nonneg; lia).
  assert (E2 : 2 ^ (eb - (e + n)) = 2 ^ (eb - (e + n + n2)) * 2 ^ n2).
  { rewrite <- Z.pow_add_r by lia. f_equal. lia. }
  assert (Hq : m1 / 2 ^ n2 * 2 ^ n2 <= m1).
  { pose proof (Z.mul_div_le m1 (2 ^ n2) P2). lia. }
  assert (P3 : 0 < 2 ^ (eb - (e + n + n2))) by (apply Z.pow_pos_nonneg; lia).
  assert (Hb2 : shr_m mrs'' <= B * 2 ^ (eb - (e + n + n2))).
  { rewrite S2. rewrite E2, Z.mul_assoc in R1. nia. }
  assert (H0 : 0 <= shr_m mrs'') by (rewrite S2; apply Z.div_pos; lia).
  destruct (shr_m mrs'') as [|p|p]; [now left | | lia].
  right. exists p, (e + n + n2).
  replace (e + n + n2 <=? emax - prec) with true
    by (symmetry; apply Z.leb_le; unfold emax, prec; lia).
  repeat split; assumption.
Qed.

(** Comparison with the bound, read on mantissas. *)
Lemma leb_bound (p : positive) (e : Z) (M : positive) :
  Zpos M = B -> e <= eb -> Zpos p <= B * 2 ^ (eb - e) ->
  SFleb (S754_finite false p e) (S754_finite false M eb) = true.
Proof.
  intros HM He Hb. unfold SFleb, SFcompare.
  destruct (Z.compare_spec e eb) as [E|L|G]; [|reflexivity|lia].
  subst e. rewrite Z.sub_diag, Z.pow_0_r, Z.mul_1_r in Hb.
  rewrite Pos.compare_cont_spec.
  destruct (Pos.compare_spec p M) as [E|L|G]; try reflexivity. lia.
Qed.

Lemma geb_bound (p : positive) (e : Z) (M : positive) :
  Zpos M = B -> e <= eb -> Zpos p <= B * 2 ^ (eb - e) ->
  SFleb (S754_finite true M eb) (S754_finite true p e) = true.
Proof.
  intros HM He Hb. unfold SFleb, SFcompare.
  destruct (Z.compare_spec eb e) as [E|L|G]; [|lia|reflexivity].
  subst e. rewrite Z.sub_diag, Z.pow_0_r, Z.mul_1_r in Hb.
  rewrite Pos.compare_cont_spec.
  destruct (Pos.compare_spec M p) as [E|L|G]; try reflexivity. lia.
Qed.

(** A valid float that compares below the bound is below it as a number. *)
Lemma leb_bound_inv (p : positive) (e : Z) (M : positive) :
  Zpos M = B -> 2 ^ 52 <= B ->
  valid_binary prec emax (S754_finite false p e) = true ->
  SFleb (S754_finite false p e) (S754_finite false M eb) = true ->
  e <= eb /\ Zpos p <= B * 2 ^ (eb - e).
Proof.
  intros HM HB Hv Hle. unfold SFleb, SFcompare in Hle.
  cbn [valid_binary] in Hv. unfold bounded, canonical_mantissa in Hv.
  apply andb_true_iff in Hv. destruct Hv as [Hc _]. apply Z.eqb_eq in Hc.
  pose proof (digits2_bounds p) as [_ U].
  assert (D : Zpos (digits2_pos p) <= 53)
    by (unfold fexp, SpecFloat.emin, prec, emax in Hc; lia).
  assert (U' : Zpos p < 2 ^ 53).
  { eapply Z.lt_le_trans; [exact U|]. apply Z.pow_le_mono_r; lia. }
  destruct (Z.compare_spec e eb) as [E|L|G].
  - subst e. split; [lia|]. rewrite Z.sub_diag, Z.pow_0_r, Z.mul_1_r.
    rewrite Pos.compare_cont_spec in Hle.
    destruct (Pos.compare_spec p M) as [E|L|G]; try lia. discriminate.
  - split; [lia|].
    assert (2 ^ 1 <= 2 ^ (eb - e)) by (apply Z.pow_le_mono_r; lia).
    change (2 ^ 1) with 2 in *. change (2 ^ 53) with (2 * 2 ^ 52) in U'. nia.
  - discriminate.
Qed.

End Bound.

(** *** Products *)

Lemma bounded_by_mul (B1 eb1 B2 eb2 : Z) (x : float64) (sc : bool) (Mc : positive) (ec : Z) :
  0 < B2 -> B2 < 2 ^ 53 -> -1074 <= eb2 -> eb2 <= 971 ->
  0 <= eb2 - eb1 - ec ->
  B1 * Zpos Mc <= B2 * 2 ^ (eb2 - eb1 - ec) ->
  bounded_by B1 eb1 x ->
  bounded_by B2 eb2 (SFmul prec emax x (S754_finite sc Mc ec)).
Proof.
  intros H1 H2 H3 H4 He HB Hx.
  destruct x as [s|s| |s p e]; cbn [bounded_by] in Hx; try contradiction.
  - exact I.
  - destruct Hx as [Hle Hp]. cbn [SFmul].
    assert (Hm : Zpos (p * Mc) <= B2 * 2 ^ (eb2 - (e + ec))).
    { rewrite Pos2Z.inj_mul.
      replace (eb2 - (e + ec)) with ((eb2 - eb1 - ec) + (eb1 - e)) by lia.
      rewrite Z.pow_add_r by lia.
      assert (P : 0 < 2 ^ (eb1 - e)) by (apply Z.pow_pos_nonneg; lia).
      assert (Q : Zpos p * Zpos Mc <= B1 * 2 ^ (eb1 - e) * Zpos Mc)
        by (apply Z.mul_le_mono_nonneg_r; lia).
      assert (R : B1 * Zpos Mc * 2 ^ (eb1 - e) <= B2 * 2 ^ (eb2 - eb1 - ec) * 2 ^ (eb1 - e))
        by (apply Z.mul_le_mono_nonneg_r; lia).
      lia. }
    destruct (binary_round_aux_le B2 eb2 H1 H2 H3 H4 (xorb s sc) (Zpos (p * Mc)) (e + ec))
      as [E | (q & e2 & E & L & U)]; [lia | lia | exact Hm | |]; rewrite E.
    + exact I.
    + split; assumption.
Qed.

Lemma angle_bounded (phi : float64) :
  angle_0_pi phi = true -> bounded_by Mpi (-51) phi.
Proof.
  unfold angle_0_pi. rewrite !andb_true_iff. intros [[Hv H0] Hpi].
  destruct phi as [s|[|]| |[|] p e]; try discriminate.
  - exact I.
  - apply (leb_bound_inv Mpi (-51) p e 7074237752028440%positive);
      [reflexivity | unfold Mpi; lia | exact Hv | exact Hpi].
Qed.

Lemma within_180_bounded (d : float64) : bounded_by M360 (-45) d -> within_180 d = true.
Proof.
  intros H. unfold within_180. apply andb_true_iff.
  destruct d as [s|s| |s p e]; cbn [bounded_by] in H; try contradiction.
  - split; reflexivity.
  - destruct H as [He Hp]. destruct s.
    + split; [|reflexivity].
      apply (geb_bound M360 (-45) p e 6333186975989760%positive); [reflexivity | lia | exact Hp].
    + split; [reflexivity|].
      apply (leb_bound M360 (-45) p e 6333186975989760%positive); [reflexivity | lia | exact Hp].
Qed.

(** [phi * 1.0] and [phi * -1.0] stay within [-pi64, pi64]. *)
Lemma mul_sign_bounded (phi : float64) (z : Z) :
  z = 1 \/ z = -1 -> bounded_by Mpi (-51) phi ->
  bounded_by Mpi (-51) (SFmul prec emax phi (of_Z z)).
Proof.
  intros [-> | ->] H.
  - change (of_Z 1) with (S754_finite false 4503599627370496 (-52)).
    apply (bounded_by_mul Mpi (-51) Mpi (-51)); unfold Mpi; try lia; exact H.
  - change (of_Z (-1)) with (S754_finite true 4503599627370496 (-52)).
    apply (bounded_by_mul Mpi (-51) Mpi (-51)); unfold Mpi; try lia; exact H.
Qed.

(** [np.degrees] maps [-pi64, pi64] into [-180, 180]. *)
Lemma degrees_bounded (acos : float64 -> float64) (t : float64) :
  bounded_by Mpi (-51) t ->
  bounded_by M360 (-45) (degrees (LF := float64_libm acos) t).
Proof.
  intros H. unfold degrees. cbn [fmul float64_arith rad2deg float64_libm].
  unfold rad2deg64.
  apply (bounded_by_mul Mpi (-51) M360 (-45)); unfold Mpi, M360; try lia; exact H.
Qed.

Lemma SFleb_not_nan (x y : float64) :
  SFleb x y = true -> x <> S754_nan /\ y <> S754_nan.
Proof.
  unfold SFleb. intros H. split; intros ->; [discriminate|].
  destruct x; discriminate.
Qed.

Lemma degrees_nan (acos : float64 -> float64) :
  degrees (LF := float64_libm acos) S754_nan = S754_nan.
Proof. reflexivity. Qed.

(** *** The result *)

Lemma clip_unit (x : float64) :
  (x = S754_nan /\ clip x (fconst (-1)) (fconst 1) = S754_nan) \/
  (x <> S754_nan /\ in_unit_interval (clip x (fconst (-1)) (fconst 1)) = true).
Proof.
  destruct (clip_between x (fconst (-1)) (fconst 1)) as [[N E] | (N & L & U)];
    try discriminate; try reflexivity.
  - now left.
  - right. split; [exact N|]. unfold in_unit_interval. apply andb_true_iff.
    split; assumption.
Qed.

Lemma arccos_angle (acos : float64 -> float64) (c : float64) :
  acos_in_range acos ->
  c = S754_nan \/ in_unit_interval c = true ->
  arccos (Libm := float64_libm acos) c = S754_nan \/
  angle_0_pi (arccos (Libm := float64_libm acos) c) = true.
Proof.
  intros Ha [-> | Hc]; [now left|]. right.
  cbn [arccos float64_libm]. unfold arccos_with.
  pose proof (Ha c Hc) as A.
  unfold in_unit_interval in Hc. apply andb_true_iff in Hc. destruct Hc as [L _].
  apply SFleb_not_nan in L. destruct L as [_ N].
  destruct c; try exact A. contradiction.
Qed.

(** The signed angle in radians lies within [-pi64, pi64]. *)
Lemma signed_phi_bounded (phi sign : float64) :
  angle_0_pi phi = true ->
  sign = of_Z 1 \/ sign = of_Z (-1) \/ sign = S754_zero false ->
  bounded_by Mpi (-51) (if fne sign (fconst 0) then fmul phi sign else phi).
Proof.
  intros Hp Hs. apply angle_bounded in Hp.
  destruct Hs as [-> | [-> | ->]].
  - change (fne (of_Z 1) (fconst 0)) with true. cbv iota.
    apply mul_sign_bounded; [now left | exact Hp].
  - change (fne (of_Z (-1)) (fconst 0)) with true. cbv iota.
    apply mul_sign_bounded; [now right | exact Hp].
  - exact Hp.
Qed.

Lemma signed_phi_nan (phi sign : float64) :
  phi = S754_nan \/ sign = S754_nan ->
  (if fne sign (fconst 0) then fmul phi sign else phi) = S754_nan.
Proof.
  intros [-> | ->].
  - destruct (fne sign (fconst 0)); reflexivity.
  - change (fne S754_nan (fconst 0)) with true. cbv iota.
    apply Binary64Extras.fmul_nan_r.
Qed.

Lemma within_180_not_nan (d : float64) : within_180 d = true -> d <> S754_nan.
Proof. intros H ->. discriminate. Qed.

(** C3 (amended).  In float64, with a C library whose [acos] maps [-1, 1]
    into [0, pi]: [calc_dihedral] clips the dot product of the normalised
    normals into [-1, 1] (or leaves NaN), takes its arc cosine phi in
    [0, pi], multiplies phi by a sign in {1, -1} (a sign 0 leaves phi as it
    is), and converts to degrees.  For every input the result is NaN or
    lies in the closed interval [-180, 180]; it is NaN exactly when the
    dot product of the normalised normals or the product that gives the
    sign is NaN. *)
Theorem calc_dihedral_range (acos : float64 -> float64) (p1 p2 p3 p4 : vec3 float64) :
  acos_in_range acos ->
  let b1 := vsub p2 p1 in
  let b2 := vsub p3 p2 in
  let b3 := vsub p4 p3 in
  let n1 := vdiv (cross b1 b2) (norm (cross b1 b2)) in
  let n2 := vdiv (cross b2 b3) (norm (cross b2 b3)) in
  let cos_phi := clip (dot n1 n2) (fconst (-1)) (fconst 1) in
  let phi := arccos (Libm := float64_libm acos) cos_phi in
  let sign := np_sign (dot b2 (cross n1 n2)) in
  let d := calc_dihedral (LF := float64_libm acos) p1 p2 p3 p4 in
  (cos_phi = S754_nan \/ in_unit_interval cos_phi = true) /\
  (phi = S754_nan \/ angle_0_pi phi = true) /\
  (sign = of_Z 1 \/ sign = of_Z (-1) \/ sign = S754_zero false \/ sign = S754_nan) /\
  d = degrees (LF := float64_libm acos)
        (if fne sign (fconst 0) then fmul phi sign else phi) /\
  (d = S754_nan \/ within_180 d = true) /\
  (d = S754_nan <->
   dot n1 n2 = S754_nan \/ dot b2 (cross n1 n2) = S754_nan).
Proof.
  intros Ha b1 b2 b3 n1 n2 cos_phi phi sign d.
  assert (E : d = degrees (LF := float64_libm acos)
                    (if fne sign (fconst 0) then fmul phi sign else phi))
    by reflexivity.
  pose proof (clip_unit (dot n1 n2)) as Hc. fold cos_phi in Hc.
  pose proof (np_sign_cases (dot b2 (cross n1 n2))) as Hs. fold sign in Hs.
  destruct Hc as [[Nx Nc] | [Nx Uc]].
  - (* the dot product is NaN *)
    assert (Np : phi = S754_nan) by (unfold phi; rewrite Nc; reflexivity).
    assert (Nd : d = S754_nan)
      by (rewrite E, (signed_phi_nan phi sign (or_introl Np)); reflexivity).
    split; [now left|]. split; [now left|].
    split; [destruct Hs as [[_ ->] | [_ [-> | [-> | ->]]]]; auto|].
    split; [exact E|]. split; [now left|].
    split; [intros _; now left | intros _; exact Nd].
  - pose proof (arccos_angle acos cos_phi Ha (or_intror Uc)) as Hp. fold phi in Hp.
    assert (Ap : angle_0_pi phi = true).
    { destruct Hp as [Np | Ap]; [|exact Ap].
      unfold phi in Np. cbn [arccos float64_libm] in Np. unfold arccos_with in Np.
      pose proof (Ha cos_phi Uc) as A.
      unfold in_unit_interval in Uc. apply andb_true_iff in Uc. destruct Uc as [L _].
      apply SFleb_not_nan in L. destruct L as [_ N].
      destruct cos_phi; try contradiction; rewrite Np in A; discriminate. }
    split; [now right|]. split; [now right|].
    destruct Hs as [[Nt Ns] | [Nt Hs]].
    + (* the orientation product is NaN *)
      assert (Nd : d = S754_nan)
        by (rewrite E, (signed_phi_nan phi sign (or_intror Ns)); reflexivity).
      split; [auto|]. split; [exact E|]. split; [now left|].
      split; [intros _; now right | intros _; exact Nd].
    + assert (W : within_180 d = true).
      { rewrite E. apply within_180_bounded, degrees_bounded.
        now apply signed_phi_bounded. }
      split; [destruct Hs as [-> | [-> | ->]]; auto|].
      split; [exact E|]. split; [now right|].
      split.
      * intros Nd. exfalso. now apply (within_180_not_nan d W).
      * intros [N | N]; contradiction.
Qed.

Lemma acos_coarse_in_range : acos_in_range acos_coarse.
Proof.
  intros x _. unfold acos_coarse.
  destruct (SFleb x (of_Z (-1))); [reflexivity|].
  destruct (SFltb x (of_Z 1)); reflexivity.
Qed.

Lemma calc_dihedral_range_witness :
  acos_in_range acos_coarse /\
  (calc_dihedral (LF := float64_libm acos_coarse) T1 T2 T3 T4 = S754_nan \/
   within_180 (calc_dihedral (LF := float64_libm acos_coarse) T1 T2 T3 T4) = true).
Proof.
  split; [exact acos_coarse_in_range|].
  apply (calc_dihedral_range acos_coarse T1 T2 T3 T4 acos_coarse_in_range).
Defined.

(** On the four sample points every product is exact: the clipped dot
    product of the normalised normals is exactly -1.0 and the sign is
    -1.0, so the result is -180.0 as soon as [acos(-1.0)] is the float
    nearest to pi. *)
Lemma near_trans_minus_180 (acos : float64 -> float64) :
  acos (of_Z (-1)) = pi64 ->
  calc_dihedral (LF := float64_libm acos) T1 T2 T3 T4 = f_minus_180.
Proof.
  intros H. unfold calc_dihedral. cbv zeta.
  set (n1 := vdiv (cross (vsub T2 T1) (vsub T3 T2)) (norm (cross (vsub T2 T1) (vsub T3 T2)))).
  set (n2 := vdiv (cross (vsub T3 T2) (vsub T4 T3)) (norm (cross (vsub T3 T2) (vsub T4 T3)))).
  assert (Ec : clip (dot n1 n2) (fconst (-1)) (fconst 1) = of_Z (-1)) by (vm_compute; reflexivity).
  assert (Es : np_sign (dot (vsub T3 T2) (cross n1 n2)) = of_Z (-1)) by (vm_compute; reflexivity).
  rewrite Ec, Es.
  change (arccos (Libm := float64_libm acos) (of_Z (-1))) with (acos (of_Z (-1))).
  rewrite H. vm_compute. reflexivity.
Qed.

(** C3 as stated fails: the four points are not degenerate (the two
    normals are (1, 0, 0) and (-1, -2^-33, 0)), yet the result is -180.0,
    which is outside (-180, 180]. *)
Lemma calc_dihedral_reaches_minus_180 :
  cross (vsub T2 T1) (vsub T3 T2) = ipt 1 0 0 /\
  cross (vsub T3 T2) (vsub T4 T3) = V3 (of_Z (-1)) minus_2p_33 (S754_zero false) /\
  acos_coarse (of_Z (-1)) = pi64 /\
  calc_dihedral (LF := float64_libm acos_coarse) T1 T2 T3 T4 = f_minus_180 /\
  SFltb f_minus_180 f_minus_180 = false.
Proof.
  split; [vm_compute; reflexivity|]. split; [vm_compute; reflexivity|].
  split; [reflexivity|]. split; [|reflexivity].
  apply near_trans_minus_180. reflexivity.
Qed.

End Binary64RangeFacts.

(** ** Runs on binary64 *)

Module Binary64Runs.
Import Binary64 Binary64Libm Binary64Range Samples64 NormalizeFacts DriverFacts.


(** *** Degenerate geometry *)

(** C1 (amended).  [calc_dihedral] checks nothing and raises nothing.
    When a computed normal [b1 x b2] or [b2 x b3] has only zeros (or NaN)
    as components, as it has for collinear points whose differences and
    products are exact, the division by its norm gives NaN, NaN runs
    through clip, arccos, sign and degrees, and NaN is returned as an
    ordinary value: a freeze-current set-up on such atoms succeeds with
    NaN as the constraint target. *)
Theorem zero_normal_gives_nan (acos : float64 -> float64) (p1 p2 p3 p4 : vec3 float64) :
  zero_vector (cross (vsub p2 p1) (vsub p3 p2)) \/
  zero_vector (cross (vsub p3 p2) (vsub p4 p3)) ->
  calc_dihedral (LF := float64_libm acos) p1 p2 p3 p4 = S754_nan /\
  (forall format_float inp out c s w,
      setup_constraint (LF := float64_libm acos) format_float
        (mkArgs inp out c s (Some (1, 2, 3, 4)%Z) None) (molecule64 p1 p2 p3 p4) w
      = (inr (set_constraint (molecule64 p1 p2 p3 p4)
                [mkFixInternals [(S754_nan, (0, 1, 2, 3)%Z)]]),
         log w [constraining_line (1, 2, 3, 4)%Z;
                "--dihedral_angle not specified. Using current dihedral angle: "
                  ++ format_float ".2f" S754_nan ++ "°"])).
Proof.
  intros H.
  assert (E : calc_dihedral (LF := float64_libm acos) p1 p2 p3 p4 = S754_nan).
  { unfold calc_dihedral; cbv zeta. apply Binary64Extras.nan_propagates64.
    destruct H as [H|H]; [left | right]; now apply Binary64Extras.normalized_zero. }
  split; [exact E|].
  intros format_float inp out c s w.
  apply (setup_fixed_current (LF := float64_libm acos) format_float inp out c s
           (1, 2, 3, 4)%Z (molecule64 p1 p2 p3 p4) w S754_nan).
  rewrite <- E. apply (dihedral_of_ok (LF := float64_libm acos)); reflexivity.
Qed.

Lemma zero_normal_gives_nan_witness :
  zero_vector (cross (vsub (ipt 1 0 0) (ipt 0 0 0)) (vsub (ipt 2 0 0) (ipt 1 0 0))) /\
  calc_dihedral (LF := libm_coarse) (ipt 0 0 0) (ipt 1 0 0) (ipt 2 0 0) (ipt 2 1 0)
  = S754_nan.
Proof.
  assert (Z : zero_vector (cross (vsub (ipt 1 0 0) (ipt 0 0 0))
                                 (vsub (ipt 2 0 0) (ipt 1 0 0))))
    by (repeat split; reflexivity).
  split; [exact Z|].
  apply (zero_normal_gives_nan acos_coarse (ipt 0 0 0) (ipt 1 0 0) (ipt 2 0 0) (ipt 2 1 0)).
  left. exact Z.
Defined.

(** C1 as stated fails: the atoms at (0,0,0), (1,0,0), (2,0,0) are
    collinear and the first normal is the zero vector, yet no error is
    raised: [calc_dihedral] returns NaN and the set-up of a freeze-current
    constraint succeeds with NaN as its target. *)
Lemma collinear_not_reported :
  cross (vsub (ipt 1 0 0) (ipt 0 0 0)) (vsub (ipt 2 0 0) (ipt 1 0 0))
  = V3 (S754_zero false) (S754_zero false) (S754_zero false) /\
  calc_dihedral (LF := libm_coarse) (ipt 0 0 0) (ipt 1 0 0) (ipt 2 0 0) (ipt 2 1 0)
  = S754_nan /\
  setup_constraint (LF := libm_coarse) show64 freeze_args64 straight64 Samples.empty_world
  = (inr (set_constraint straight64 [mkFixInternals [(S754_nan, (0, 1, 2, 3)%Z)]]),
     mkWorld [constraining_line (1, 2, 3, 4)%Z;
              "--dihedral_angle not specified. Using current dihedral angle: <.2f:nan>°"]
             []).
Proof. split; [|split]; vm_compute; reflexivity. Qed.

(** *** Constrained runs *)

Section Runs.
Variable acos : float64 -> float64.
Variable format_float : string -> float64 -> string.
Variable script : string.
Context {Cell Pbc Calc : Type}.
Variable read : string -> M (Atoms float64 Cell Pbc Calc).
Variable load_calculator : M Calc.
Variable bfgs_run : Atoms float64 Cell Pbc Calc -> M (Atoms float64 Cell Pbc Calc).
Variable get_potential_energy : Atoms float64 Cell Pbc Calc -> M float64.



End Runs.

(** *** Runs on the sample inputs *)

Lemma fixed_current_target_witness :
  main (LF := libm_coarse) show64 "opt.py" read_bent64 Samples.calc_unit bfgs_id64
       energy_zero64 freeze_args64 Samples.empty_world
  = (inr tt,
     mkWorld
       (banner "opt.py"
        ++ [constraining_line (1, 2, 3, 4)%Z;
            "--dihedral_angle not specified. Using current dihedral angle: <.2f>°";
            "Starting geometry optimization...";
            "Actual dihedral angle: <.2f>°";
            "Optimization finished.";
            "Final energy: <.6f> eV";
            "Optimized structure saved to out.xyz with comment: dihedral=1-2-3-4 actual_angle=<.2f> energy=<.6f> eV charge=<> spin=<> constraint_source=fixed_current"])
       [("out.xyz",
         xyz_text show64 (sites bent64)
           "dihedral=1-2-3-4 actual_angle=<.2f> energy=<.6f> eV charge=<> spin=<> constraint_source=fixed_current")]).
Proof.
  destruct (RunFacts.fixed_current_target (LF := libm_coarse) show64 "opt.py" read_bent64
              Samples.calc_unit bfgs_id64 energy_zero64
              "in.xyz" "out.xyz" (of_Z 0) (of_Z 1) 1 2 3 4 None Samples.empty_world
              bent64 (log Samples.empty_world (banner "opt.py"))
              (ipt 1 0 0) (ipt 0 0 0) (ipt 0 0 1) (ipt 0 1 1) tt
              (log (log Samples.empty_world (banner "opt.py"))
                 [constraining_line (1, 2, 3, 4)%Z;
                  "--dihedral_angle not specified. Using current dihedral angle: <.2f>°"])
              (set_calc
                 (set_constraint (set_info bent64 (of_Z 0) (of_Z 1))
                    [mkFixInternals
                       [(calc_dihedral (LF := libm_coarse)
                           (ipt 1 0 0) (ipt 0 0 0) (ipt 0 0 1) (ipt 0 1 1),
                         (0, 1, 2, 3)%Z)]])
                 tt)
              (log (log (log Samples.empty_world (banner "opt.py"))
                      [constraining_line (1, 2, 3, 4)%Z;
                       "--dihedral_angle not specified. Using current dihedral angle: <.2f>°"])
                 ["Starting geometry optimization..."])
              (S754_zero false)
              (log (log (log Samples.empty_world (banner "opt.py"))
                      [constraining_line (1, 2, 3, 4)%Z;
                       "--dihedral_angle not specified. Using current dihedral angle: <.2f>°"])
                 ["Starting geometry optimization..."])
              (ipt 1 0 0) (ipt 0 0 0) (ipt 0 0 1) (ipt 0 1 1))
    as [_ H];
    [try (vm_compute; reflexivity) .. |
     unfold freeze_args64; rewrite H; vm_compute; reflexivity].
  intros _. repeat split.
Defined.





End Binary64Runs.
